(** * chain: middleware composition and response interception

    A shallow embedding of the Go package [chain] (files [chain.go] and
    [response_writer.go]) and the proofs of its documented properties.

    Layout of the development:
    - Go base types: [int] arithmetic, byte slices, headers, errors;
    - the platform's response sink ([http.ResponseWriter]) as a type class,
      with its optional interfaces ([http.Flusher], [http.Hijacker],
      [http.Pusher], [Unwrap]);
    - handlers as programs over the writer they are given;
    - [responseWriter] and its methods;
    - the registration heap: [Mux] objects, slices with backing arrays,
      the router's table;
    - the theorems. *)

From stdpp Require Import gmap strings list fin_maps.
From Stdlib Require Import ZArith Lia Ascii.

#[local] Set Warnings "-register-all".

(** ** Go base types *)

(** Go's [int] on a 64-bit platform: arithmetic wraps around. *)
Definition int_max : Z := (2 ^ 63 - 1)%Z.
Definition int_min : Z := (- 2 ^ 63)%Z.
Definition wrap_int (z : Z) : Z := ((z + 2 ^ 63) `mod` 2 ^ 64 - 2 ^ 63)%Z.

(** [len(b)] of a byte slice. *)
Definition len (b : list Byte.byte) : Z := Z.of_nat (length b).

Definition StatusOK : Z := 200%Z.
Definition StatusNotFound : Z := 404%Z.
Definition StatusMethodNotAllowed : Z := 405%Z.

(** [http.Header] is [map[string][]string]. *)
Abbreviation header := (gmap string (list string)).

(** Go errors, as far as this package meets them. *)
Inductive error : Type :=
| ErrNotSupported                         (* http.ErrNotSupported *)
| wrapError (msg : string) (err : error)  (* fmt.Errorf with %w *)
| errorString (msg : string).             (* errors.New *)

(** [err.Error()]. *)
Definition errMsg (e : error) : string :=
  match e with
  | ErrNotSupported => "feature not supported"
  | wrapError msg _ => msg
  | errorString msg => msg
  end.

(** net/http's unexported [errNotSupported()]: [fmt.Errorf("%w", ErrNotSupported)]. *)
Definition errNotSupported : error := wrapError (errMsg ErrNotSupported) ErrNotSupported.

(** [errors.Is(e, target)] for the errors above. *)
Fixpoint errorsIs (e : error) : bool :=
  match e with
  | ErrNotSupported => true
  | wrapError _ e' => errorsIs e'
  | errorString _ => false
  end.

Record Request : Type := mkRequest { Method : string; Path : string }.

Record PushOptions : Type := mkPushOptions { pushMethod : string; pushHeader : header }.

(** What [Hijack] returns: [(net.Conn, *bufio.ReadWriter, error)]; the
    connection and the buffered reader/writer are handles, [None] is nil. *)
Record hijackResult : Type := mkHijack {
  hjConn : option nat;
  hjBuf : option nat;
  hjErr : option error }.

(** Heap addresses ([*Mux], backing arrays, [*http.ServeMux]). *)
Abbreviation loc := nat (only parsing).

(** ** The platform's response sink *)

(** The dynamic type of a sink: which optional interfaces its concrete type
    implements, and the type of what [Unwrap] returns when it has one. The
    methods read the header map and update the sink's state. *)
Inductive rwtype (T : Type) : Type := RWType {
  asFlushErrorer : option (header → T → T * option error);
  asFlusher : option (header → T → T);
  asHijacker : option (header → T → T * hijackResult);
  asPusher : option (string → option PushOptions → header → T → T * option error);
  asUnwrapper : option (rwtype T) }.
Arguments RWType {T}.
Arguments asFlushErrorer {T}.
Arguments asFlusher {T}.
Arguments asHijacker {T}.
Arguments asPusher {T}.
Arguments asUnwrapper {T}.

(** The required methods of [http.ResponseWriter]. [Header()] returns the
    sink's header map, one map object per sink; it is kept beside the sink's
    own state (see [rawWriter]) and the sink reads it when it commits. *)
Class Sink (T : Type) : Type := {
  sinkWriteHeader : header → Z → T → T;
  sinkWrite : header → list Byte.byte → T → T * (Z * option error);
  sinkType : rwtype T }.

(** A sink together with the header map [Header()] hands out. *)
Record rawWriter (T : Type) : Type := mkRaw { Header : header; impl : T }.
Arguments mkRaw {T}.
Arguments Header {T}.
Arguments impl {T}.

Section RawWriter.
Context {T : Type} `{Sink T}.

Definition rawWriteHeader (st : Z) (w : rawWriter T) : rawWriter T :=
  mkRaw (Header w) (sinkWriteHeader (Header w) st (impl w)).

Definition rawWrite (b : list Byte.byte) (w : rawWriter T) : rawWriter T * (Z * option error) :=
  let '(s', r) := sinkWrite (Header w) b (impl w) in (mkRaw (Header w) s', r).

Definition rawSetHeader (h : header) (w : rawWriter T) : rawWriter T :=
  mkRaw h (impl w).

(** net/http's [ResponseController], which [Flush] and [Hijack] call: its
    methods walk the [Unwrap] chain until a writer implements the interface
    asked for ([FlushError] before [Flush]), and return [errNotSupported()]
    when none does. *)
Fixpoint rcFlush (t : rwtype T) (w : rawWriter T) : rawWriter T * option error :=
  match asFlushErrorer t with
  | Some f => let '(s', e) := f (Header w) (impl w) in (mkRaw (Header w) s', e)
  | None =>
    match asFlusher t with
    | Some f => (mkRaw (Header w) (f (Header w) (impl w)), None)
    | None =>
      match asUnwrapper t with
      | Some t' => rcFlush t' w
      | None => (w, Some errNotSupported)
      end
    end
  end.

Fixpoint rcHijack (t : rwtype T) (w : rawWriter T) : rawWriter T * hijackResult :=
  match asHijacker t with
  | Some f => let '(s', r) := f (Header w) (impl w) in (mkRaw (Header w) s', r)
  | None =>
    match asUnwrapper t with
    | Some t' => rcHijack t' w
    | None => (w, mkHijack None None (Some errNotSupported))
    end
  end.

(** Does some writer of the [Unwrap] chain implement the interface? *)
Fixpoint canFlush (t : rwtype T) : bool :=
  match asFlushErrorer t, asFlusher t, asUnwrapper t with
  | Some _, _, _ | None, Some _, _ => true
  | None, None, Some t' => canFlush t'
  | None, None, None => false
  end.

Fixpoint canHijack (t : rwtype T) : bool :=
  match asHijacker t, asUnwrapper t with
  | Some _, _ => true
  | None, Some t' => canHijack t'
  | None, None => false
  end.
End RawWriter.

(** ** Handlers *)

(** A handler is the program it runs against the writer it is given: the
    calls it makes on the writer, each with what the handler does with the
    result, and its own observable effects ([Emit]). A handler reaches the
    sink through the writer it is given. [next.ServeHTTP(w, r)] inside a
    middleware is sequencing ([seq]). *)
Inductive prog : Type :=
| Return
| Emit (e : string) (k : prog)
| HeaderDo (f : header → header) (k : prog)       (* w.Header().Set / Add / Del *)
| HeaderGet (k : header → prog)                   (* reading w.Header() *)
| CallWriteHeader (st : Z) (k : prog)             (* w.WriteHeader(st) *)
| CallWrite (b : list Byte.byte) (k : Z * option error → prog)  (* w.Write(b) *)
| AsResponseWriter (k : option (Z * Z * bool) → prog)
    (* rw, ok := w.(chain.ResponseWriter); rw.Status(), rw.Size(), rw.Written() *)
| Rewrap (m : loc) (r : option Request) (inner : prog) (k : prog)
    (* the closure built by Mux.wrap, see [wrap] *)
| CallFlush (k : prog)
    (* if f, ok := w.(http.Flusher); ok { f.Flush() } *)
| CallHijack (k : option hijackResult → prog)
    (* if hj, ok := w.(http.Hijacker); ok { hj.Hijack() } *)
| CallPush (target : string) (opts : option PushOptions) (k : option (option error) → prog).
    (* if p, ok := w.(http.Pusher); ok { p.Push(target, opts) } *)

Definition Handler : Type := option Request → prog.
Definition Middleware : Type := Handler → Handler.

Fixpoint seq (p q : prog) : prog :=
  match p with
  | Return => q
  | Emit e k => Emit e (seq k q)
  | HeaderDo f k => HeaderDo f (seq k q)
  | HeaderGet k => HeaderGet (λ h, seq (k h) q)
  | CallWriteHeader st k => CallWriteHeader st (seq k q)
  | CallWrite b k => CallWrite b (λ r, seq (k r) q)
  | AsResponseWriter k => AsResponseWriter (λ o, seq (k o) q)
  | Rewrap m r inner k => Rewrap m r inner (seq k q)
  | CallFlush k => CallFlush (seq k q)
  | CallHijack k => CallHijack (λ o, seq (k o) q)
  | CallPush target opts k => CallPush target opts (λ o, seq (k o) q)
  end.

(** The handler's observable effects, oldest first. *)
Abbreviation log := (list string).

(** ** responseWriter *)

Record responseWriter (T : Type) : Type := mkResponseWriter {
  ResponseWriter : rawWriter T;
  status : Z;
  size : Z;
  written : bool;
  req : option Request;
  notFound : option Handler;
  methodNotAllowed : option Handler;
  ignoreWrites : bool }.
Arguments mkResponseWriter {T}.
Arguments ResponseWriter {T}.
Arguments status {T}.
Arguments size {T}.
Arguments written {T}.
Arguments req {T}.
Arguments notFound {T}.
Arguments methodNotAllowed {T}.
Arguments ignoreWrites {T}.

(** [for k := range h { delete(h, k) }] *)
Definition clearHeader (h : header) : header :=
  foldr delete h (map_to_list h).*1.

Section ResponseWriterMethods.
Context {T : Type} `{Sink T}.

Definition Status (rw : responseWriter T) : Z :=
  if (status rw =? 0)%Z then StatusOK else status rw.

Definition Size (rw : responseWriter T) : Z := size rw.

Definition Written (rw : responseWriter T) : bool := written rw.

Definition Unwrap (rw : responseWriter T) : rawWriter T := ResponseWriter rw.

Definition wrapResponseWriter (w : rawWriter T) (r : option Request)
    (nf mna : option Handler) : responseWriter T :=
  mkResponseWriter w 0 0 false r nf mna false.

(** The tail of [WriteHeader]: record the status and forward the commit. *)
Definition commit (st : Z) (rw : responseWriter T) : responseWriter T :=
  mkResponseWriter (rawWriteHeader st (ResponseWriter rw)) st (size rw) true
    (req rw) (notFound rw) (methodNotAllowed rw) (ignoreWrites rw).

(** The handler [WriteHeader] hands the response to, if any. *)
Definition intercepting (st : Z) (rw : responseWriter T) : option Handler :=
  if (status rw =? 0)%Z then
    match (st =? StatusNotFound)%Z, notFound rw with
    | true, Some h => Some h
    | _, _ =>
      match (st =? StatusMethodNotAllowed)%Z, methodNotAllowed rw with
      | true, Some h => Some h
      | _, _ => None
      end
    end
  else None.

Section Interception.
(** [handler.ServeHTTP(rw, rw.req)]: running a handler's program against
    this writer; [None] when the run is cut short (see [exec]). *)
Variable serve : prog → responseWriter T → log → option (responseWriter T * log).

Definition handleInterception (handler : Handler) (rw : responseWriter T) (l : log)
    : option (responseWriter T * log) :=
  let rw1 :=
    mkResponseWriter (rawSetHeader (clearHeader (Header (ResponseWriter rw))) (ResponseWriter rw))
      (status rw) (size rw) (written rw) (req rw) None None (ignoreWrites rw) in
  match serve (handler (req rw1)) rw1 l with
  | Some (rw2, l') =>
    Some (mkResponseWriter (ResponseWriter rw2) (status rw2) (size rw2) (written rw2)
            (req rw2) (notFound rw2) (methodNotAllowed rw2) true, l')
  | None => None
  end.

Definition WriteHeader (st : Z) (rw : responseWriter T) (l : log)
    : option (responseWriter T * log) :=
  if written rw then Some (rw, l)
  else
    match intercepting st rw with
    | Some handler => handleInterception handler rw l
    | None => Some (commit st rw, l)
    end.
End Interception.

Definition Write (b : list Byte.byte) (rw : responseWriter T)
    : responseWriter T * (Z * option error) :=
  if ignoreWrites rw then (rw, (len b, None))
  else
    let st := if written rw then status rw else StatusOK in
    let '(w', (n, err)) := rawWrite b (ResponseWriter rw) in
    (mkResponseWriter w' st (wrap_int (size rw + n)) true
       (req rw) (notFound rw) (methodNotAllowed rw) (ignoreWrites rw), (n, err)).

Definition setUnderlying (w : rawWriter T) (rw : responseWriter T) : responseWriter T :=
  mkResponseWriter w (status rw) (size rw) (written rw)
    (req rw) (notFound rw) (methodNotAllowed rw) (ignoreWrites rw).

Definition Flush (rw : responseWriter T) : responseWriter T :=
  setUnderlying (rcFlush sinkType (ResponseWriter rw)).1 rw.

Definition Hijack (rw : responseWriter T) : responseWriter T * hijackResult :=
  let '(w', r) := rcHijack sinkType (ResponseWriter rw) in (setUnderlying w' rw, r).

Definition Push (target : string) (opts : option PushOptions) (rw : responseWriter T)
    : responseWriter T * option error :=
  match asPusher sinkType with
  | None => (rw, Some ErrNotSupported)
  | Some push =>
    let w := ResponseWriter rw in
    let '(s', e) := push target opts (Header w) (impl w) in
    (setUnderlying (mkRaw (Header w) s') rw, e)
  end.

(** Running a handler's program against a [responseWriter]. The writer is
    already a [chain.ResponseWriter], so the closure of [wrap] runs its
    handler on it as it is, and it is a flusher, a hijacker and a pusher
    whatever the sink is. [fuel] bounds how deep one interception may
    start another; [exec_enough] shows that 2 is always enough. *)
Fixpoint exec (fuel : nat) : prog → responseWriter T → log → option (responseWriter T * log) :=
  match fuel with
  | O => λ _ _ _, None
  | S fuel' =>
    fix go (p : prog) (rw : responseWriter T) (l : log) {struct p}
        : option (responseWriter T * log) :=
      match p with
      | Return => Some (rw, l)
      | Emit e k => go k rw (l ++ [e])
      | HeaderDo f k =>
        go k (setUnderlying (rawSetHeader (f (Header (ResponseWriter rw))) (ResponseWriter rw)) rw) l
      | HeaderGet k => go (k (Header (ResponseWriter rw))) rw l
      | CallWriteHeader st k =>
        match WriteHeader (exec fuel') st rw l with
        | Some (rw', l') => go k rw' l'
        | None => None
        end
      | CallWrite b k => let '(rw', r) := Write b rw in go (k r) rw' l
      | AsResponseWriter k => go (k (Some (Status rw, Size rw, Written rw))) rw l
      | Rewrap _ _ inner k =>
        match go inner rw l with
        | Some (rw', l') => go k rw' l'
        | None => None
        end
      | CallFlush k => go k (Flush rw) l
      | CallHijack k => let '(rw', r) := Hijack rw in go (k (Some r)) rw' l
      | CallPush target opts k => let '(rw', e) := Push target opts rw in go (k (Some e)) rw' l
      end
  end.
End ResponseWriterMethods.

Arguments exec {T H} fuel p rw l : simpl never.

(** ** The registration heap *)

(** A run of setup code either finishes or panics with a message. *)
Inductive result (A : Type) : Type :=
| ok (a : A)
| panic (msg : string).
Arguments ok {A}.
Arguments panic {A}.

#[global] Instance result_ret : MRet result := λ A a, ok a.
#[global] Instance result_bind : MBind result :=
  λ A B f x, match x with ok a => f a | panic msg => panic msg end.

Definition nilDeref {A : Type} : result A :=
  panic "runtime error: invalid memory address or nil pointer dereference".

(** A slice of middleware: its backing array ([None] when it has none, as
    for [nil] and for [[]T{}]), length and capacity. Slices of this package
    always start at offset 0 of their array. *)
Record slice : Type := mkSlice { sarr : option loc; slen : nat; scap : nat }.

Definition nilSlice : slice := mkSlice None 0 0.

Record Mux : Type := mkMux {
  router : loc;
  middlewares : slice;
  prefix : string;
  mux_notFound : option Handler;
  mux_methodNotAllowed : option Handler }.

(** The objects setup code allocates: [Mux] values, the backing arrays of
    their slices (the initialised slots of each), and each [http.ServeMux]
    with the entries registered on it, oldest first. *)
Record heap : Type := mkHeap {
  muxes : gmap loc Mux;
  arrays : gmap loc (list Middleware);
  routers : gmap loc (list (string * Handler)) }.

Definition emptyHeap : heap := mkHeap ∅ ∅ ∅.

Definition getMux (m : loc) (hp : heap) : result Mux :=
  match muxes hp !! m with Some M => ok M | None => nilDeref end.

Definition setMux (m : loc) (M : Mux) (hp : heap) : heap :=
  mkHeap (<[m := M]> (muxes hp)) (arrays hp) (routers hp).

Definition setArrays (arrs : gmap loc (list Middleware)) (hp : heap) : heap :=
  mkHeap (muxes hp) arrs (routers hp).

(** The elements of a slice. *)
Definition elems (arrs : gmap loc (list Middleware)) (s : slice) : list Middleware :=
  match sarr s with
  | Some a => take (slen s) (default [] (arrs !! a))
  | None => []
  end.

(** The middleware chain of the Mux at [m]. *)
Definition chain (hp : heap) (m : loc) : list Middleware :=
  match muxes hp !! m with
  | Some M => elems (arrays hp) (middlewares M)
  | None => []
  end.

Section Registration.
(** How much capacity beyond the needed length the runtime gives the array
    it allocates when [append] has to grow (from the old capacity and the
    needed length); Go leaves it to the implementation. *)
Variable slack : nat → nat → nat.

(** Go's built-in [append(s, xs...)]: in place when the capacity allows,
    else into a new array. (A slice without array has capacity 0, so it is
    extended in place only by nothing.) *)
Definition append (s : slice) (xs : list Middleware) (arrs : gmap loc (list Middleware))
    : slice * gmap loc (list Middleware) :=
  let n := (slen s + length xs)%nat in
  if decide (n ≤ scap s)%nat then
    match sarr s, xs with
    | Some a, _ :: _ =>
      let old := default [] (arrs !! a) in
      (mkSlice (Some a) n (scap s), <[a := take (slen s) old ++ xs ++ drop n old]> arrs)
    | _, _ => (mkSlice (sarr s) n (scap s), arrs)
    end
  else
    let a := fresh (dom arrs) in
    (mkSlice (Some a) n (n + slack (scap s) n), <[a := elems arrs s ++ xs]> arrs).

Definition New (hp : heap) : loc * heap :=
  let r := fresh (dom (routers hp)) in
  let m := fresh (dom (muxes hp)) in
  (m, mkHeap (<[m := mkMux r nilSlice "" None None]> (muxes hp)) (arrays hp)
        (<[r := []]> (routers hp))).

Definition WithNotFound (m : loc) (handler : option Handler) (hp : heap) : result heap :=
  M ← getMux m hp;
  ok (setMux m (mkMux (router M) (middlewares M) (prefix M) handler (mux_methodNotAllowed M)) hp).

Definition WithMethodNotAllowed (m : loc) (handler : option Handler) (hp : heap) : result heap :=
  M ← getMux m hp;
  ok (setMux m (mkMux (router M) (middlewares M) (prefix M) (mux_notFound M) handler) hp).

(** The arguments of [Use] once none of them is nil. *)
Fixpoint nonNil (mw : list (option Middleware)) : option (list Middleware) :=
  match mw with
  | [] => Some []
  | None :: _ => None
  | Some fn :: rest => cons fn <$> nonNil rest
  end.

Definition Use (m : loc) (mw : list (option Middleware)) (hp : heap) : result heap :=
  match nonNil mw with
  | None => panic "chain: nil middleware passed to Use"
  | Some fns =>
    M ← getMux m hp;
    let '(s, arrs) := append (middlewares M) fns (arrays hp) in
    ok (setMux m (mkMux (router M) s (prefix M) (mux_notFound M) (mux_methodNotAllowed M))
          (setArrays arrs hp))
  end.

(** The child Mux that [Group] and [Route] build: the parent's router, a
    copy of its middleware ([append([]T{}, m.middlewares...)]) and the
    given prefix. *)
Definition deriveMux (M : Mux) (pfx : string) (hp : heap) : loc * heap :=
  let '(s, arrs) := append nilSlice (elems (arrays hp) (middlewares M)) (arrays hp) in
  let child := fresh (dom (muxes hp)) in
  (child, setMux child (mkMux (router M) s pfx None None) (setArrays arrs hp)).

Definition Group (m : loc) (fn : option (loc → heap → result heap)) (hp : heap) : result heap :=
  match fn with
  | None => panic "chain: nil function passed to Group"
  | Some fn =>
    M ← getMux m hp;
    let '(groupMux, hp') := deriveMux M (prefix M) hp in
    fn groupMux hp'
  end.

Definition Route (m : loc) (pfx : string) (fn : option (loc → heap → result heap)) (hp : heap)
    : result heap :=
  match fn with
  | None => panic "chain: nil function passed to Route"
  | Some fn =>
    M ← getMux m hp;
    let '(groupMux, hp') := deriveMux M (prefix M +:+ pfx) hp in
    fn groupMux hp'
  end.

(** The loop of [prefixPattern]: the index of the first '/', 0 when there
    is none. ([range] walks runes; '/' is ASCII, so it is the first byte
    0x2F.) *)
Fixpoint pathStartFrom (i : nat) (pattern : string) : nat :=
  match pattern with
  | EmptyString => 0%nat
  | String c rest => if Ascii.eqb c "/"%char then i else pathStartFrom (S i) rest
  end.

Definition prefixPattern (M : Mux) (pattern : string) : string :=
  if String.eqb (prefix M) "" then pattern
  else
    let pathStart := pathStartFrom 0 pattern in
    String.substring 0 pathStart pattern +:+ prefix M
      +:+ String.substring pathStart (String.length pattern - pathStart) pattern.

(** The loop of [wrap]: [for i := len - 1; i >= 0; i-- { handler = mws[i](handler) }],
    with [i] counting the iterations left. *)
Fixpoint wrapLoop (mws : list Middleware) (i : nat) (handler : Handler) : result Handler :=
  match i with
  | O => ok handler
  | S j =>
    match mws !! j with
    | Some mw => wrapLoop mws j (mw handler)
    | None => panic "index out of range"
    end
  end.

Definition wrap (m : loc) (M : Mux) (handler : Handler) (hp : heap) : result Handler :=
  handler' ← wrapLoop (elems (arrays hp) (middlewares M)) (slen (middlewares M)) handler;
  ok (λ r, Rewrap m r (handler' r) Return).

(** [http.ServeMux]'s check of a pattern against the entries the router
    holds: the message [http.ServeMux.Handle] panics with (for an invalid
    pattern, or for one that conflicts with a registered pattern), [None]
    when it accepts the pattern. The check belongs to net/http; the package
    is verified for any check. *)
Variable registerErr : list (string * Handler) → string → option string.

(** [http.ServeMux.Handle]: panics when the check refuses the pattern, else
    the entry joins the router's table. *)
Definition routerHandle (r : loc) (pattern : string) (handler : Handler) (hp : heap) : result heap :=
  match routers hp !! r with
  | Some table =>
    match registerErr table pattern with
    | Some msg => panic msg
    | None =>
      ok (mkHeap (muxes hp) (arrays hp) (<[r := table ++ [(pattern, handler)]]> (routers hp)))
    end
  | None => nilDeref
  end.

Definition Handle (m : loc) (pattern : string) (handler : option Handler) (hp : heap) : result heap :=
  match handler with
  | None => panic "chain: nil handler passed to Handle"
  | Some handler =>
    M ← getMux m hp;
    h ← wrap m M handler hp;
    routerHandle (router M) (prefixPattern M pattern) h hp
  end.

Definition HandleFunc (m : loc) (pattern : string) (handlerFunc : option Handler) (hp : heap)
    : result heap :=
  match handlerFunc with
  | None => panic "chain: nil handler passed to HandleFunc"
  | Some handlerFunc =>
    M ← getMux m hp;
    h ← wrap m M handlerFunc hp;
    routerHandle (router M) (prefixPattern M pattern) h hp
  end.
End Registration.

(** ** Serving *)

Section Serving.
Context {T : Type} `{Sink T}.

(** [http.ServeMux.ServeHTTP(w, r)]: the matcher picks a handler for the
    request from its table (a registered one, or its own reply for
    not-found and method-not-allowed) and runs it against [w]. The matcher
    belongs to net/http; the package is verified for any matcher. *)
Variable serveMux : list (string * Handler) → option Request → prog.

Definition wrapWriter (M : Mux) (w : rawWriter T) (r : option Request) : responseWriter T :=
  wrapResponseWriter w r (mux_notFound M) (mux_methodNotAllowed M).

(** [Mux.ServeHTTP]; the result is the wrapper as the request leaves it
    (the sink is its [ResponseWriter]) and the log. *)
Definition ServeHTTP (m : loc) (w : rawWriter T) (r : option Request) (hp : heap) (l : log)
    : result (responseWriter T * log) :=
  M ← getMux m hp;
  match routers hp !! router M with
  | None => nilDeref
  | Some table =>
    match exec 2 (serveMux table r) (wrapWriter M w r) l with
    | Some res => ok res
    | None => panic "out of fuel"
    end
  end.

(** Running a handler's program against a writer that is not a
    [chain.ResponseWriter]: the calls reach the sink, the type assertion
    fails, and the closure of [wrap] wraps the writer with the handlers its
    Mux has at that moment. *)
Fixpoint execRaw (hp : heap) (p : prog) (w : rawWriter T) (l : log)
    : option (rawWriter T * log) :=
  match p with
  | Return => Some (w, l)
  | Emit e k => execRaw hp k w (l ++ [e])
  | HeaderDo f k => execRaw hp k (rawSetHeader (f (Header w)) w) l
  | HeaderGet k => execRaw hp (k (Header w)) w l
  | CallWriteHeader st k => execRaw hp k (rawWriteHeader st w) l
  | CallWrite b k => let '(w', r) := rawWrite b w in execRaw hp (k r) w' l
  | AsResponseWriter k => execRaw hp (k None) w l
  | Rewrap m r inner k =>
    match muxes hp !! m with
    | None => None
    | Some M =>
      match exec 2 inner (wrapResponseWriter w r (mux_notFound M) (mux_methodNotAllowed M)) l with
      | Some (rw', l') => execRaw hp k (ResponseWriter rw') l'
      | None => None
      end
    end
  | CallFlush k =>
    match asFlusher sinkType with
    | Some flush => execRaw hp k (mkRaw (Header w) (flush (Header w) (impl w))) l
    | None => execRaw hp k w l
    end
  | CallHijack k =>
    match asHijacker sinkType with
    | Some hijack =>
      let '(s', r) := hijack (Header w) (impl w) in execRaw hp (k (Some r)) (mkRaw (Header w) s') l
    | None => execRaw hp (k None) w l
    end
  | CallPush target opts k =>
    match asPusher sinkType with
    | Some push =>
      let '(s', e) := push target opts (Header w) (impl w) in
      execRaw hp (k (Some e)) (mkRaw (Header w) s') l
    | None => execRaw hp (k None) w l
    end
  end.
End Serving.

(** ** Setup code *)

(** Setup code that reaches the heap through the package's exported
    functions only; the callbacks of [Group] and [Route] get the child
    ([DoGroupNil] and [DoRouteNil] pass a nil callback). *)
Inductive script : Type :=
| Done
| DoNew (k : loc → script)
| DoUse (m : loc) (mw : list (option Middleware)) (k : script)
| DoGroup (m : loc) (fn : loc → script) (k : script)
| DoGroupNil (m : loc) (k : script)
| DoRoute (m : loc) (pfx : string) (fn : loc → script) (k : script)
| DoRouteNil (m : loc) (pfx : string) (k : script)
| DoHandle (m : loc) (pattern : string) (handler : option Handler) (k : script)
| DoHandleFunc (m : loc) (pattern : string) (handler : option Handler) (k : script)
| DoWithNotFound (m : loc) (handler : option Handler) (k : script)
| DoWithMethodNotAllowed (m : loc) (handler : option Handler) (k : script).

Section Run.
Variable slack : nat → nat → nat.
Variable registerErr : list (string * Handler) → string → option string.

Fixpoint run (s : script) (hp : heap) : result heap :=
  match s with
  | Done => ok hp
  | DoNew k => let '(m, hp') := New hp in run (k m) hp'
  | DoUse m mw k => hp' ← Use slack m mw hp; run k hp'
  | DoGroup m fn k => hp' ← Group slack m (Some (λ child, run (fn child))) hp; run k hp'
  | DoGroupNil m k => hp' ← Group slack m None hp; run k hp'
  | DoRoute m pfx fn k => hp' ← Route slack m pfx (Some (λ child, run (fn child))) hp; run k hp'
  | DoRouteNil m pfx k => hp' ← Route slack m pfx None hp; run k hp'
  | DoHandle m pattern handler k =>
    hp' ← Handle registerErr m pattern handler hp; run k hp'
  | DoHandleFunc m pattern handler k =>
    hp' ← HandleFunc registerErr m pattern handler hp; run k hp'
  | DoWithNotFound m handler k => hp' ← WithNotFound m handler hp; run k hp'
  | DoWithMethodNotAllowed m handler k => hp' ← WithMethodNotAllowed m handler hp; run k hp'
  end.
End Run.

(** ** Well-formed heaps *)

(** A slice is backed by an array that holds its elements; a slice without
    an array is empty and has no capacity. *)
Definition slice_ok (arrs : gmap loc (list Middleware)) (s : slice) : Prop :=
  match sarr s with
  | Some a => ∃ arr, arrs !! a = Some arr ∧ (slen s ≤ length arr)%nat
  | None => slen s = 0%nat ∧ scap s = 0%nat
  end.

(** Every Mux has a well-formed slice, and no two share a backing array. *)
Definition heap_ok (hp : heap) : Prop :=
  (∀ m M, muxes hp !! m = Some M → slice_ok (arrays hp) (middlewares M))
  ∧ (∀ m1 m2 M1 M2 a,
       muxes hp !! m1 = Some M1 → muxes hp !! m2 = Some M2 →
       sarr (middlewares M1) = Some a → sarr (middlewares M2) = Some a → m1 = m2).

(** The chain applied to a handler, first middleware outermost. *)
Definition compose (mws : list Middleware) (handler : Handler) : Handler :=
  foldr (λ mw acc, mw acc) handler mws.

(** The pattern has no '/' in it. *)
Fixpoint noSlash (s : string) : bool :=
  match s with
  | EmptyString => true
  | String c rest => negb (Ascii.eqb c "/"%char) && noSlash rest
  end.

(** ** Sinks and handlers of the test suite *)

(** [mockResponseWriter]: no optional interface. *)
Record mockResponseWriter : Type := mkMock { statusCode : Z; body : list Byte.byte }.

#[global] Instance mockResponseWriter_Sink : Sink mockResponseWriter := {
  sinkWriteHeader _ st m := mkMock st (body m);
  sinkWrite _ b m := (mkMock (statusCode m) (body m ++ b), (len b, None));
  sinkType := RWType None None None None None }.

(** [mockFullWriter]: flusher, hijacker and pusher. *)
Record mockFullWriter : Type := mkMockFull {
  mockBase : mockResponseWriter;
  flushCalled : bool;
  hijackCalled : bool;
  pushCalled : bool;
  pushTarget : string }.

#[global] Instance mockFullWriter_Sink : Sink mockFullWriter := {
  sinkWriteHeader h st m :=
    mkMockFull (sinkWriteHeader h st (mockBase m)) (flushCalled m) (hijackCalled m)
      (pushCalled m) (pushTarget m);
  sinkWrite h b m :=
    let '(base, r) := sinkWrite h b (mockBase m) in
    (mkMockFull base (flushCalled m) (hijackCalled m) (pushCalled m) (pushTarget m), r);
  sinkType :=
    RWType None
      (Some (λ _ m, mkMockFull (mockBase m) true (hijackCalled m) (pushCalled m) (pushTarget m)))
      (Some (λ _ m, (mkMockFull (mockBase m) (flushCalled m) true (pushCalled m) (pushTarget m),
                     mkHijack None None (Some (errorString "mock hijack")))))
      (Some (λ target _ _ m,
               (mkMockFull (mockBase m) (flushCalled m) (hijackCalled m) true target, None)))
      None }.

Definition newMockResponseWriter : rawWriter mockResponseWriter := mkRaw ∅ (mkMock 0 []).

Definition newMockFullWriter : rawWriter mockFullWriter :=
  mkRaw ∅ (mkMockFull (mkMock 0 []) false false false "").

(** net/http's [Error(w, msg, code)], the reply of the matcher's not-found
    and method-not-allowed paths. *)
Definition httpError (msg : string) (code : Z) : prog :=
  HeaderDo (delete "Content-Length")
    (HeaderDo (<["Content-Type" := ["text/plain; charset=utf-8"]]>)
       (HeaderDo (<["X-Content-Type-Options" := ["nosniff"]]>)
          (CallWriteHeader code
             (CallWrite (String.list_byte_of_string (msg +:+ String "010"%char EmptyString))
                (λ _, Return))))).

(** A matcher for the examples: a request is served by the first entry whose
    pattern is its method and path or its path alone, and gets the not-found
    reply when there is none. *)
Definition exactMatcher (table : list (string * Handler)) (r : option Request) : prog :=
  match r with
  | None => Return
  | Some rq =>
    match filter (λ e, e.1 = (Method rq +:+ " " +:+ Path rq) ∨ e.1 = Path rq) table with
    | [] => httpError "404 page not found" StatusNotFound
    | e :: _ => e.2 r
    end
  end.

(** The middleware of [TestMultipleMiddlewareOrder]: note, call the next
    handler, note again. *)
Definition tracing (before after : string) : Middleware :=
  λ next r, Emit before (seq (next r) (Emit after Return)).

(** The custom not-found handler of [TestNotFoundHandler]. *)
Definition custom404 : Handler :=
  λ _, CallWriteHeader StatusNotFound
         (CallWrite (String.list_byte_of_string "Custom 404") (λ _, Return)).

(** ** Setup code of the test suite *)

(** A runtime that gives a grown array twice the needed length. *)
Definition doubling (old needed : nat) : nat := needed.

(** A check for the examples, with the refusals of [http.ServeMux] that need
    no parsing of the pattern: the empty pattern, a pattern without '/', and
    a pattern that is registered already. *)
Definition strictCheck (table : list (string * Handler)) (pattern : string) : option string :=
  if String.eqb pattern "" then Some "http: invalid pattern"
  else if noSlash pattern then Some "http: host/path missing /"
  else if bool_decide (pattern ∈ table.*1)
  then Some "http: pattern conflicts with a registered pattern"
  else None.

(** The heap setup code leaves, starting from nothing. *)
Definition heapOf (s : script) : heap :=
  match run doubling strictCheck s emptyHeap with
  | ok hp => hp
  | panic _ => emptyHeap
  end.

(** The Mux at an address ([New]'s value where there is none). *)
Definition muxAt (hp : heap) (m : loc) : Mux :=
  default (mkMux 0 nilSlice "" None None) (muxes hp !! m).

Definition okHandler (name : string) : Handler :=
  λ _, Emit name (CallWrite (String.list_byte_of_string "OK") (λ _, Return)).

(** [TestMultipleMiddlewareOrder]. *)
Definition orderSetup : script :=
  DoNew (λ mux,
    DoUse mux [Some (tracing "middleware1-before" "middleware1-after")]
      (DoUse mux [Some (tracing "middleware2-before" "middleware2-after")]
         (DoHandleFunc mux "GET /order-test" (Some (okHandler "handler")) Done))).

(** A Mux with a custom not-found handler and one middleware, before any
    scope is derived from it. *)
Definition parentSetup : script :=
  DoNew (λ mux,
    DoWithNotFound mux (Some custom404)
      (DoUse mux [Some (tracing "global-before" "global-after")] Done)).

(** [TestNestedRoutePrefix] and [TestRoutePrefixWithPatternWithoutMethod]. *)
Definition prefixSetup : script :=
  DoNew (λ mux,
    DoRoute mux "/api" (λ api,
      DoRoute api "/v1" (λ v1,
        DoHandleFunc v1 "GET /users" (Some (okHandler "v1 users")) Done)
        (DoHandleFunc api "/health" (Some (okHandler "healthy")) Done))
      Done).

(** A Mux and a scope derived from it under the prefix "/api". *)
Definition routeSetup : script := DoNew (λ mux, DoRoute mux "/api" (λ _, Done) Done).

(** A sink that already carries the headers of the matcher's not-found
    reply. *)
Definition mockWithHeaders : rawWriter mockResponseWriter :=
  mkRaw (<["X-Content-Type-Options" := ["nosniff"]]>
           (<["Content-Type" := ["text/plain; charset=utf-8"]]> ∅))
    (mkMock 0 []).

Definition someRequest : option Request := Some (mkRequest "GET" "/non-existent").

(** ** The normal commit path, for comparison *)

Section NormalPath.
Context {T : Type} `{Sink T}.

(** A header commit that cannot be intercepted: nothing when a status is
    already committed, else the commit is recorded and forwarded. *)
Definition commitOnce (st : Z) (rw : responseWriter T) : responseWriter T :=
  if written rw then rw else commit st rw.

(** Running a program when every [WriteHeader] takes the normal commit
    path; no handler is ever called from inside. *)
Fixpoint execNormal (p : prog) (rw : responseWriter T) (l : log) : responseWriter T * log :=
  match p with
  | Return => (rw, l)
  | Emit e k => execNormal k rw (l ++ [e])
  | HeaderDo f k =>
    execNormal k (setUnderlying (rawSetHeader (f (Header (ResponseWriter rw))) (ResponseWriter rw)) rw) l
  | HeaderGet k => execNormal (k (Header (ResponseWriter rw))) rw l
  | CallWriteHeader st k => execNormal k (commitOnce st rw) l
  | CallWrite b k => let '(rw', r) := Write b rw in execNormal (k r) rw' l
  | AsResponseWriter k => execNormal (k (Some (Status rw, Size rw, Written rw))) rw l
  | Rewrap _ _ inner k => let '(rw', l') := execNormal inner rw l in execNormal k rw' l'
  | CallFlush k => execNormal k (Flush rw) l
  | CallHijack k => let '(rw', r) := Hijack rw in execNormal (k (Some r)) rw' l
  | CallPush target opts k =>
    let '(rw', e) := Push target opts rw in execNormal (k (Some e)) rw' l
  end.

(** The writer as the substitute handler receives it: headers removed,
    both handlers cleared. *)
Definition cleared (rw : responseWriter T) : responseWriter T :=
  mkResponseWriter (mkRaw ∅ (impl (ResponseWriter rw)))
    (status rw) (size rw) (written rw) (req rw) None None (ignoreWrites rw).

(** The writer once the substitute handler has returned. *)
Definition suppressed (rw : responseWriter T) : responseWriter T :=
  mkResponseWriter (ResponseWriter rw) (status rw) (size rw) (written rw)
    (req rw) (notFound rw) (methodNotAllowed rw) true.

(** A substitute handler is registered for the status. *)
Definition registered (st : Z) (rw : responseWriter T) (h : Handler) : Prop :=
  (st = StatusNotFound ∧ notFound rw = Some h)
  ∨ (st = StatusMethodNotAllowed ∧ methodNotAllowed rw = Some h).

(** Both handlers are nil. *)
Definition plain (rw : responseWriter T) : Prop :=
  notFound rw = None ∧ methodNotAllowed rw = None.
End NormalPath.

(** ** Idempotent commit, as the documentation words it *)

Section IdempotentCommit.
Context {T : Type} `{Sink T}.

(** Two header commits in a row on [rw], the first with [s1], the second
    with [s2]: the second changes nothing, the sink has received [s1] and
    nothing else, and [Status()] reports [s1]. *)
Definition first_commit_wins (rw : responseWriter T) (s1 s2 : Z) : Prop :=
  ∀ (serve : prog → responseWriter T → log → option (responseWriter T * log)) (l : log),
    ∃ rw1,
      WriteHeader serve s1 rw l = Some (rw1, l)
      ∧ WriteHeader serve s2 rw1 l = Some (rw1, l)
      ∧ ResponseWriter rw1 = rawWriteHeader s1 (ResponseWriter rw)
      ∧ Status rw1 = s1.
End IdempotentCommit.

(** ** Further definitions: the writer's invariant, runs of writes, a sink
    behind [Unwrap], and what setup code keeps *)

Section MoreWriterDefs.
Context {T : Type} `{Sink T}.

(** What every writer made by [wrapResponseWriter] keeps true: as long as
    nothing is committed the status is 0 and the size is 0; once writes are
    suppressed both handlers are nil. *)
Definition writer_ok (rw : responseWriter T) : Prop :=
  (written rw = false → status rw = 0%Z ∧ size rw = 0%Z)
  ∧ (ignoreWrites rw = true → plain rw).

(** A handler body that writes one payload after the other. *)
Fixpoint writeAll (bs : list (list Byte.byte)) (rw : responseWriter T)
    : responseWriter T * list (Z * option error) :=
  match bs with
  | [] => (rw, [])
  | b :: rest =>
    let '(rw1, r) := Write b rw in
    let '(rw2, rs) := writeAll rest rw1 in
    (rw2, r :: rs)
  end.

(** The same on the sink itself. *)
Fixpoint rawWriteAll (bs : list (list Byte.byte)) (w : rawWriter T)
    : rawWriter T * list (Z * option error) :=
  match bs with
  | [] => (w, [])
  | b :: rest =>
    let '(w1, r) := rawWrite b w in
    let '(w2, rs) := rawWriteAll rest w1 in
    (w2, r :: rs)
  end.
End MoreWriterDefs.

(** A writer of some middleware around a [mockFullWriter]: it passes on
    the required methods and offers [Unwrap], nothing else. *)
Record unwrappingWriter : Type := mkUnwrapping { unwrapped : mockFullWriter }.

Definition unwrappedFlush (_ : header) (m : unwrappingWriter) : unwrappingWriter :=
  mkUnwrapping (mkMockFull (mockBase (unwrapped m)) true (hijackCalled (unwrapped m))
                  (pushCalled (unwrapped m)) (pushTarget (unwrapped m))).

Definition unwrappedHijack (_ : header) (m : unwrappingWriter)
    : unwrappingWriter * hijackResult :=
  (mkUnwrapping (mkMockFull (mockBase (unwrapped m)) (flushCalled (unwrapped m)) true
                   (pushCalled (unwrapped m)) (pushTarget (unwrapped m))),
   mkHijack None None (Some (errorString "mock hijack"))).

Definition unwrappedPush (target : string) (_ : option PushOptions) (_ : header)
    (m : unwrappingWriter) : unwrappingWriter * option error :=
  (mkUnwrapping (mkMockFull (mockBase (unwrapped m)) (flushCalled (unwrapped m))
                   (hijackCalled (unwrapped m)) true target), None).

(** The type of what its [Unwrap] returns. *)
Definition unwrappedType : rwtype unwrappingWriter :=
  RWType None (Some unwrappedFlush) (Some unwrappedHijack) (Some unwrappedPush) None.

#[global] Instance unwrappingWriter_Sink : Sink unwrappingWriter := {
  sinkWriteHeader h st m := mkUnwrapping (sinkWriteHeader h st (unwrapped m));
  sinkWrite h b m := let '(u, r) := sinkWrite h b (unwrapped m) in (mkUnwrapping u, r);
  sinkType := RWType None None None None (Some unwrappedType) }.

(** A substitute handler that sets a header and commits nothing. *)
Definition silentHandler : Handler := λ _, HeaderDo (<["X-Seen" := ["1"]]>) Return.

Definition newUnwrappingWriter : rawWriter unwrappingWriter :=
  mkRaw ∅ (mkUnwrapping (mkMockFull (mkMock 0 []) false false false "")).

(** Every Mux points to a router that exists. *)
Definition heap_routed (hp : heap) : Prop :=
  ∀ m M, muxes hp !! m = Some M → is_Some (routers hp !! router M).

(** From [hp] to [hp']: every Mux is still there with the router and the
    prefix it had, and every router's table has only grown at its end. *)
Definition keeps (hp hp' : heap) : Prop :=
  (∀ m M, muxes hp !! m = Some M →
     ∃ M', muxes hp' !! m = Some M' ∧ router M' = router M ∧ prefix M' = prefix M)
  ∧ (∀ r table, routers hp !! r = Some table →
       ∃ table', routers hp' !! r = Some table' ∧ table `prefix_of` table').

(** * Facts about the response writer *)

Lemma wrap_int_small (z : Z) : (int_min ≤ z ≤ int_max)%Z → wrap_int z = z.
Proof.
  unfold int_min, int_max, wrap_int. intros Hz.
  rewrite Z.mod_small by lia. lia.
Qed.

Lemma foldr_delete_lookup (ks : list string) (h : header) (i : string) :
  foldr delete h ks !! i = if decide (i ∈ ks) then None else h !! i.
Proof.
  induction ks as [|k ks IH]; simpl; [done|].
  destruct (decide (k = i)) as [->|Hne].
  - rewrite lookup_delete_eq.
    destruct (decide (i ∈ i :: ks)) as [|Hin]; [done|]. exfalso. apply Hin. left.
  - rewrite lookup_delete_ne by done. rewrite IH.
    destruct (decide (i ∈ ks)), (decide (i ∈ k :: ks)) as [Hin|Hin]; try done.
    + exfalso. apply Hin. by right.
    + apply elem_of_cons in Hin as [->|]; done.
Qed.

Lemma clearHeader_empty (h : header) : clearHeader h = ∅.
Proof.
  apply map_eq. intros i. unfold clearHeader. rewrite foldr_delete_lookup, lookup_empty.
  case_decide as Hin; [done|].
  destruct (h !! i) as [v|] eqn:Hi; [|done].
  exfalso. apply Hin. apply list_elem_of_fmap. exists (i, v). split; [done|].
  by apply elem_of_map_to_list.
Qed.

Section WriterFacts.
Context {T : Type} `{Sink T}.
Implicit Types (rw : responseWriter T) (l : log) (p : prog).

Lemma exec_unfold n p rw l :
  exec (S n) p rw l =
  match p with
  | Return => Some (rw, l)
  | Emit e k => exec (S n) k rw (l ++ [e])
  | HeaderDo f k =>
    exec (S n) k (setUnderlying (rawSetHeader (f (Header (ResponseWriter rw))) (ResponseWriter rw)) rw) l
  | HeaderGet k => exec (S n) (k (Header (ResponseWriter rw))) rw l
  | CallWriteHeader st k =>
    match WriteHeader (exec n) st rw l with
    | Some (rw', l') => exec (S n) k rw' l'
    | None => None
    end
  | CallWrite b k => let '(rw', r) := Write b rw in exec (S n) (k r) rw' l
  | AsResponseWriter k => exec (S n) (k (Some (Status rw, Size rw, Written rw))) rw l
  | Rewrap _ _ inner k =>
    match exec (S n) inner rw l with
    | Some (rw', l') => exec (S n) k rw' l'
    | None => None
    end
  | CallFlush k => exec (S n) k (Flush rw) l
  | CallHijack k => let '(rw', r) := Hijack rw in exec (S n) (k (Some r)) rw' l
  | CallPush target opts k =>
    let '(rw', e) := Push target opts rw in exec (S n) (k (Some e)) rw' l
  end.
Proof. destruct p; reflexivity. Qed.

Lemma intercepting_plain st rw : plain rw → intercepting st rw = None.
Proof.
  intros [Hnf Hmna]. unfold intercepting. rewrite Hnf, Hmna.
  by repeat case_match.
Qed.

Lemma WriteHeader_plain serve st rw l :
  plain rw → WriteHeader serve st rw l = Some (commitOnce st rw, l).
Proof.
  intros Hp. unfold WriteHeader, commitOnce.
  destruct (written rw); [done|]. by rewrite intercepting_plain.
Qed.

Lemma commitOnce_plain st rw : plain rw → plain (commitOnce st rw).
Proof. unfold commitOnce, plain. by destruct (written rw). Qed.

Lemma Write_plain b rw : plain rw → plain (Write b rw).1.
Proof.
  unfold Write, plain. destruct (ignoreWrites rw); [done|].
  by destruct (rawWrite b (ResponseWriter rw)) as [w' [n e]].
Qed.

Lemma Flush_plain rw : plain rw → plain (Flush rw).
Proof. done. Qed.

Lemma Hijack_plain rw : plain rw → plain (Hijack rw).1.
Proof. unfold Hijack. by destruct (rcHijack sinkType (ResponseWriter rw)). Qed.

Lemma Push_plain target opts rw : plain rw → plain (Push target opts rw).1.
Proof.
  unfold Push. destruct (asPusher sinkType) as [push|]; [|done].
  by destruct (push target opts _ _).
Qed.

(** With both handlers nil a program runs on the normal commit path, and
    needs no fuel beyond the first unit. *)
Lemma exec_plain p : ∀ n rw l,
  plain rw → exec (S n) p rw l = Some (execNormal p rw l) ∧ plain (execNormal p rw l).1.
Proof.
  induction p as [|e k IH|f k IH|k IH|st k IH|b k IH|k IH|m r inner IHi k IHk
                  |k IH|k IH|target opts k IH];
    intros n rw l Hp; rewrite exec_unfold; simpl.
  - done.
  - by apply IH.
  - by apply IH.
  - by apply IH.
  - rewrite WriteHeader_plain by done. apply IH. by apply commitOnce_plain.
  - pose proof (Write_plain b rw Hp) as Hw. destruct (Write b rw) as [rw' r]. by apply IH.
  - by apply IH.
  - destruct (IHi n rw l Hp) as [-> Hp']. destruct (execNormal inner rw l) as [rw' l'].
    by apply IHk.
  - apply IH. by apply Flush_plain.
  - pose proof (Hijack_plain rw Hp) as Hh. destruct (Hijack rw) as [rw' r]. by apply IH.
  - pose proof (Push_plain target opts rw Hp) as Hh.
    destruct (Push target opts rw) as [rw' e]. by apply IH.
Qed.

Lemma cleared_plain rw : plain (cleared rw).
Proof. done. Qed.

(** What [handleInterception] does, in one equation. *)
Lemma handleInterception_eq n h rw l :
  handleInterception (exec (S n)) h rw l =
  Some (suppressed (execNormal (h (req rw)) (cleared rw) l).1,
        (execNormal (h (req rw)) (cleared rw) l).2).
Proof.
  unfold handleInterception. simpl. unfold rawSetHeader. rewrite clearHeader_empty.
  change (mkResponseWriter _ _ _ _ _ None None _) with (cleared rw).
  destruct (exec_plain (h (req rw)) n (cleared rw) l (cleared_plain rw)) as [-> _].
  by destruct (execNormal _ _ _).
Qed.

Lemma WriteHeader_fuel n st rw l :
  WriteHeader (exec (S n)) st rw l = WriteHeader (exec 1) st rw l
  ∧ is_Some (WriteHeader (exec 1) st rw l).
Proof.
  unfold WriteHeader. destruct (written rw); [by eauto|].
  destruct (intercepting st rw) as [h|]; [|by eauto].
  rewrite !handleInterception_eq. by eauto.
Qed.

(** Two units of fuel are enough for every program and every writer. *)
Lemma exec_enough p : ∀ n rw l,
  exec (S (S n)) p rw l = exec 2 p rw l ∧ is_Some (exec 2 p rw l).
Proof.
  induction p as [|e k IH|f k IH|k IH|st k IH|b k IH|k IH|m r inner IHi k IHk
                  |k IH|k IH|target opts k IH];
    intros n rw l; rewrite (exec_unfold (S n) _ rw l), (exec_unfold 1 _ rw l); simpl.
  - by eauto.
  - apply IH.
  - apply IH.
  - apply IH.
  - destruct (WriteHeader_fuel n st rw l) as [-> [[rw' l'] ->]]. apply IH.
  - destruct (Write b rw) as [rw' r]. apply IH.
  - apply IH.
  - destruct (IHi n rw l) as [-> [[rw' l'] ->]]. apply IHk.
  - apply IH.
  - destruct (Hijack rw) as [rw' r]. apply IH.
  - destruct (Push target opts rw) as [rw' e]. apply IH.
Qed.

Lemma exec_seq p q : ∀ n rw l,
  exec n (seq p q) rw l =
  match exec n p rw l with
  | Some (rw', l') => exec n q rw' l'
  | None => None
  end.
Proof.
  intros [|n]; [done|].
  induction p as [|e k IH|f k IH|k IH|st k IH|b k IH|k IH|m r inner IHi k IHk
                  |k IH|k IH|target opts k IH];
    intros rw l; simpl seq;
    match goal with
    | |- exec _ ?a _ _ = match exec _ ?b _ _ with _ => _ end =>
      rewrite (exec_unfold n b rw l); try rewrite (exec_unfold n a rw l)
    end; try done.
  - destruct (WriteHeader (exec n) st rw l) as [[rw' l']|]; [apply IH|done].
  - destruct (Write b rw) as [rw' r]. apply IH.
  - destruct (exec (S n) inner rw l) as [[rw' l']|]; [apply IHk|done].
  - destruct (Hijack rw) as [rw' r]. apply IH.
  - destruct (Push target opts rw) as [rw' e]. apply IH.
Qed.
End WriterFacts.

(** * The response writer: interception, commits, writes *)

Section WriterTheorems.
Context {T : Type} `{Sink T}.
Implicit Types (rw : responseWriter T) (l : log) (p : prog).

Lemma registered_intercepting st rw h :
  status rw = 0%Z → registered st rw h → intercepting st rw = Some h.
Proof.
  intros Hst [[-> Hnf]|[-> Hmna]]; unfold intercepting; rewrite Hst; simpl.
  - by rewrite Hnf.
  - by rewrite Hmna.
Qed.

Lemma Write_ignored b rw : ignoreWrites rw = true → Write b rw = (rw, (len b, None)).
Proof. intros Hi. unfold Write. by rewrite Hi. Qed.

Lemma Write_keeps_ignoreWrites b rw : ignoreWrites (Write b rw).1 = ignoreWrites rw.
Proof.
  unfold Write. destruct (ignoreWrites rw) eqn:Hi; [done|].
  by destruct (rawWrite b (ResponseWriter rw)) as [w' [n e]].
Qed.

Lemma WriteHeader_keeps_ignoreWrites serve st rw l rw' l' :
  ignoreWrites rw = true → WriteHeader serve st rw l = Some (rw', l') → ignoreWrites rw' = true.
Proof.
  intros Hi. unfold WriteHeader, handleInterception.
  destruct (written rw); [by intros [= <- <-]|].
  destruct (intercepting st rw) as [h|]; [|by intros [= <- <-]].
  destruct (serve _ _ _) as [[rw2 l2]|]; [|done]. by intros [= <- <-].
Qed.

Lemma Hijack_keeps_ignoreWrites rw : ignoreWrites (Hijack rw).1 = ignoreWrites rw.
Proof. unfold Hijack. by destruct (rcHijack sinkType (ResponseWriter rw)). Qed.

Lemma Push_keeps_ignoreWrites target opts rw :
  ignoreWrites (Push target opts rw).1 = ignoreWrites rw.
Proof.
  unfold Push. destruct (asPusher sinkType) as [push|]; [|done].
  by destruct (push target opts _ _).
Qed.

(** Once writes are suppressed they stay suppressed, whatever runs next. *)
Lemma exec_keeps_ignoreWrites n p : ∀ rw l rw' l',
  ignoreWrites rw = true → exec n p rw l = Some (rw', l') → ignoreWrites rw' = true.
Proof.
  destruct n as [|n]; [done|].
  induction p as [|e k IH|f k IH|k IH|st k IH|b k IH|k IH|m r inner IHi k IHk
                  |k IH|k IH|target opts k IH];
    intros rw l rw' l' Hi; rewrite exec_unfold.
  - by intros [= <- <-].
  - apply IH, Hi.
  - apply IH, Hi.
  - apply IH, Hi.
  - destruct (WriteHeader (exec n) st rw l) as [[rw1 l1]|] eqn:Hw; [|done].
    apply IH. by eapply WriteHeader_keeps_ignoreWrites.
  - pose proof (Write_keeps_ignoreWrites b rw) as Hk.
    destruct (Write b rw) as [rw1 r]. apply IH. simpl in Hk. congruence.
  - apply IH, Hi.
  - destruct (exec (S n) inner rw l) as [[rw1 l1]|] eqn:Hinner; [|done].
    apply IHk. by eapply IHi.
  - apply IH, Hi.
  - pose proof (Hijack_keeps_ignoreWrites rw) as Hk.
    destruct (Hijack rw) as [rw1 r]. apply IH. simpl in Hk. congruence.
  - pose proof (Push_keeps_ignoreWrites target opts rw) as Hk.
    destruct (Push target opts rw) as [rw1 e]. apply IH. simpl in Hk. congruence.
Qed.

Lemma WriteHeader_intercepted n st rw l h :
  written rw = false → status rw = 0%Z → registered st rw h →
  WriteHeader (exec (S n)) st rw l =
    Some (suppressed (execNormal (h (req rw)) (cleared rw) l).1,
          (execNormal (h (req rw)) (cleared rw) l).2).
Proof.
  intros Hw Hst Hreg. unfold WriteHeader.
  rewrite Hw, (registered_intercepting st rw h Hst Hreg). apply handleInterception_eq.
Qed.


(** C3. Interception happens at most once per request: the substitute
    handler runs with both handlers cleared; on such a writer [WriteHeader]
    calls no handler, whatever the status; the substitute's whole run takes
    the normal commit path, ends for every amount of fuel, and leaves the
    handlers cleared; a 404 or 405 it commits first is an ordinary commit. *)
Theorem interception_one_shot (n : nat) (st : Z) rw l (h : Handler) :
  written rw = false → status rw = 0%Z → registered st rw h →
  notFound (cleared rw) = None ∧ methodNotAllowed (cleared rw) = None
  ∧ (∀ serve st' rw' l', notFound rw' = None → methodNotAllowed rw' = None →
       WriteHeader serve st' rw' l' = Some (commitOnce st' rw', l'))
  ∧ exec (S n) (h (req rw)) (cleared rw) l = Some (execNormal (h (req rw)) (cleared rw) l)
  ∧ WriteHeader (exec (S n)) st rw l =
      Some (suppressed (execNormal (h (req rw)) (cleared rw) l).1,
            (execNormal (h (req rw)) (cleared rw) l).2)
  ∧ plain (execNormal (h (req rw)) (cleared rw) l).1
  ∧ (∀ st' k, h (req rw) = CallWriteHeader st' k →
       execNormal (h (req rw)) (cleared rw) l = execNormal k (commit st' (cleared rw)) l).
Proof.
  intros Hw Hst Hreg.
  destruct (exec_plain (h (req rw)) n (cleared rw) l (cleared_plain rw)) as [Hex Hpl].
  split_and!; try done.
  - intros serve st' rw' l' Hnf Hmna. by apply WriteHeader_plain.
  - by apply WriteHeader_intercepted.
  - intros st' k ->. simpl. unfold commitOnce. simpl. by rewrite Hw.
Qed.

(** C4. After an interception every later [Write] reports all its bytes as
    written and no error, and changes nothing: not the sink, not the size,
    the status or the written flag; this holds in every state the rest of
    the request can reach. *)
Theorem writes_after_interception_discarded (n : nat) (st : Z) rw l (h : Handler) :
  written rw = false → status rw = 0%Z → registered st rw h →
  ∃ rw1 l1,
    WriteHeader (exec (S n)) st rw l = Some (rw1, l1)
    ∧ ignoreWrites rw1 = true
    ∧ ∀ m p rw2 l2, exec m p rw1 l1 = Some (rw2, l2) →
        ∀ b, Write b rw2 = (rw2, (len b, None)).
Proof.
  intros Hw Hst Hreg.
  eexists _, _. split; [by apply WriteHeader_intercepted|]. split; [done|].
  intros m p rw2 l2 Hex b. apply Write_ignored.
  by eapply exec_keeps_ignoreWrites; [|exact Hex].
Qed.
End WriterTheorems.

Section CommitAndWrite.
Context {T : Type} `{Sink T}.
Implicit Types (rw : responseWriter T) (l : log).

(** C5. Two header commits in a row, the first with an HTTP status (any
    value but 0, which the writer keeps for "no status yet") and not
    intercepted: the second changes nothing, the sink has received the
    first status and nothing else, and the writer records the first status
    and [Status()] reports it. *)
Theorem commit_idempotent
    (serve : prog → responseWriter T → log → option (responseWriter T * log))
    rw (s1 s2 : Z) l :
  written rw = false → intercepting s1 rw = None → s1 ≠ 0%Z →
  ∃ rw1,
    WriteHeader serve s1 rw l = Some (rw1, l)
    ∧ WriteHeader serve s2 rw1 l = Some (rw1, l)
    ∧ ResponseWriter rw1 = rawWriteHeader s1 (ResponseWriter rw)
    ∧ status rw1 = s1
    ∧ Status rw1 = s1.
Proof.
  intros Hw Hi Hne. exists (commit s1 rw).
  unfold WriteHeader. rewrite Hw, Hi. simpl. split_and!; try done.
  unfold Status. simpl. by destruct (Z.eqb_spec s1 0).
Qed.

Lemma Write_eq b rw :
  ignoreWrites rw = false →
  Write b rw =
    (mkResponseWriter (rawWrite b (ResponseWriter rw)).1
       (if written rw then status rw else StatusOK)
       (wrap_int (size rw + (rawWrite b (ResponseWriter rw)).2.1)) true
       (req rw) (notFound rw) (methodNotAllowed rw) false,
     (rawWrite b (ResponseWriter rw)).2).
Proof.
  intros Hi. unfold Write. rewrite Hi.
  by destruct (rawWrite b (ResponseWriter rw)) as [w' [n e]].
Qed.

(** C6. A new writer reports status 200, not written, size 0. A write that
    is not suppressed marks the writer written, makes [Status()] report 200
    when no status was committed before, hands the bytes to the sink and
    adds the count the sink reports to the size. Two writes on a new
    writer whose sink takes all the bytes leave the size at the sum of the
    two lengths. *)
Theorem write_accounting (w : rawWriter T) (r : option Request) (nf mna : option Handler)
    rw (a b : list Byte.byte) :
  let rw0 := wrapResponseWriter w r nf mna in
  (Status rw0 = StatusOK ∧ Written rw0 = false ∧ Size rw0 = 0%Z)
  ∧ (ignoreWrites rw = false →
       Written (Write b rw).1 = true
       ∧ (written rw = false → Status (Write b rw).1 = StatusOK)
       ∧ ResponseWriter (Write b rw).1 = (rawWrite b (ResponseWriter rw)).1
       ∧ (Write b rw).2 = (rawWrite b (ResponseWriter rw)).2
       ∧ Size (Write b rw).1 = wrap_int (Size rw + (Write b rw).2.1))
  ∧ ((Write a rw0).2.1 = len a → (Write b (Write a rw0).1).2.1 = len b →
       (len a + len b ≤ int_max)%Z →
       Size (Write b (Write a rw0).1).1 = (len a + len b)%Z).
Proof.
  simpl. split_and!; try done.
  - intros Hi. unfold Write. rewrite Hi.
    destruct (rawWrite b (ResponseWriter rw)) as [w' [n e]]. simpl.
    split_and!; try done. intros ->. done.
  - rewrite (Write_eq a) by done. simpl. intros Ha.
    rewrite Write_eq by done. simpl. intros Hb.
    unfold Size. simpl. rewrite Ha, Hb. intros Hle.
    assert (0 ≤ len a)%Z by (unfold len; lia).
    assert (0 ≤ len b)%Z by (unfold len; lia).
    rewrite (wrap_int_small (0 + len a)) by (unfold int_min, int_max in *; lia).
    rewrite wrap_int_small by (unfold int_min, int_max in *; lia). lia.
Qed.

Lemma setUnderlying_same rw : setUnderlying (ResponseWriter rw) rw = rw.
Proof. by destruct rw. Qed.

Lemma rcHijack_unsupported (t : rwtype T) (w : rawWriter T) :
  canHijack t = false → rcHijack t w = (w, mkHijack None None (Some errNotSupported)).
Proof.
  revert t. fix IH 1. intros [fe fl hj pu [t'|]]; simpl;
    destruct hj; try done. apply IH.
Qed.

Lemma rcFlush_unsupported (t : rwtype T) (w : rawWriter T) :
  canFlush t = false → rcFlush t w = (w, Some errNotSupported).
Proof.
  revert t. fix IH 1. intros [fe fl hj pu [t'|]]; simpl;
    destruct fe, fl; try done. apply IH.
Qed.

(** C9. [Hijack] fails with the error "feature not supported" when no
    writer of the sink's [Unwrap] chain is a hijacker, and hands the call to
    the sink when it is one, returning what the sink returns; [Push]
    returns [http.ErrNotSupported] when the sink is not a pusher and
    otherwise hands target and options to the sink unchanged; [Flush] does
    nothing when the sink cannot flush. *)
Theorem capability_delegation rw (target : string) (opts : option PushOptions) :
  let w := ResponseWriter rw in
  (canHijack sinkType = false →
     ∃ err, Hijack rw = (rw, mkHijack None None (Some err))
            ∧ errMsg err = "feature not supported" ∧ errorsIs err = true)
  ∧ (∀ hijack, asHijacker sinkType = Some hijack →
       Hijack rw = (setUnderlying (mkRaw (Header w) (hijack (Header w) (impl w)).1) rw,
                    (hijack (Header w) (impl w)).2))
  ∧ (asPusher sinkType = None → Push target opts rw = (rw, Some ErrNotSupported))
  ∧ (∀ push, asPusher sinkType = Some push →
       Push target opts rw =
         (setUnderlying (mkRaw (Header w) (push target opts (Header w) (impl w)).1) rw,
          (push target opts (Header w) (impl w)).2))
  ∧ (canFlush sinkType = false → Flush rw = rw).
Proof.
  simpl. split_and!.
  - intros Hc. exists errNotSupported. unfold Hijack.
    rewrite rcHijack_unsupported by done. by rewrite setUnderlying_same.
  - intros hijack Hh. unfold Hijack. destruct sinkType as [fe fl hj pu un]. simpl in *.
    subst hj. by destruct (hijack _ _).
  - intros Hp. unfold Push. by rewrite Hp.
  - intros push Hp. unfold Push. rewrite Hp. by destruct (push _ _ _ _).
  - intros Hc. unfold Flush. rewrite rcFlush_unsupported by done. apply setUnderlying_same.
Qed.
End CommitAndWrite.

(** * The registration heap: slices, chains, setup code *)

Section HeapFacts.
Variable slack : nat → nat → nat.
Variable registerErr : list (string * Handler) → string → option string.
Implicit Types (arrs : gmap nat (list Middleware)) (s : slice) (hp : heap).

Lemma elems_length arrs s : slice_ok arrs s → length (elems arrs s) = slen s.
Proof.
  unfold slice_ok, elems. destruct (sarr s) as [a|].
  - intros (arr & -> & Hle). simpl. rewrite length_take. lia.
  - by intros [-> _].
Qed.

(** [append] yields the old elements followed by the new ones. *)
Lemma append_elems s xs arrs :
  slice_ok arrs s →
  elems (append slack s xs arrs).2 (append slack s xs arrs).1 = elems arrs s ++ xs
  ∧ slice_ok (append slack s xs arrs).2 (append slack s xs arrs).1.
Proof.
  intros Hok. pose proof (elems_length arrs s Hok) as Hlen.
  unfold append. case_decide as Hcap.
  - destruct (sarr s) as [a|] eqn:Ha, xs as [|x xs]; simpl.
    + rewrite Nat.add_0_r, app_nil_r. unfold elems, slice_ok in *. simpl. by rewrite Ha in *.
    + unfold slice_ok, elems in *. rewrite Ha in *. simpl.
      destruct Hok as (arr & Harr & Hle). rewrite Harr in *. simpl in *.
      rewrite lookup_insert_eq. simpl. split.
      * rewrite take_app_ge by (rewrite length_take; lia).
        rewrite length_take. f_equal.
        replace (slen s + S (length xs) - slen s `min` length arr)%nat with (length (x :: xs)) by (simpl; lia).
        exact (take_app_length (x :: xs) _).
      * eexists. split; [done|]. rewrite !length_app, length_take. simpl.
        rewrite length_app. lia.
    + rewrite Nat.add_0_r, app_nil_r. unfold elems, slice_ok in *. simpl. by rewrite Ha in *.
    + exfalso. unfold slice_ok in Hok. rewrite Ha in Hok. simpl in *. lia.
  - simpl. unfold elems at 1, slice_ok. simpl. rewrite lookup_insert_eq. simpl. split.
    + apply take_ge. rewrite length_app. lia.
    + eexists. split; [done|]. rewrite length_app. lia.
Qed.

(** The array of the result is the old one or a new one. *)
Lemma append_arr s xs arrs :
  sarr (append slack s xs arrs).1 = sarr s
  ∨ ∃ a, sarr (append slack s xs arrs).1 = Some a ∧ arrs !! a = None.
Proof.
  unfold append. case_decide.
  - left. by destruct (sarr s), xs.
  - right. eexists. split; [done|]. apply not_elem_of_dom, is_fresh.
Qed.

(** [append] leaves every slice on another array as it was. *)
Lemma append_frame s xs arrs s2 :
  slice_ok arrs s2 → (∀ a, sarr s = Some a → sarr s2 ≠ Some a) →
  elems (append slack s xs arrs).2 s2 = elems arrs s2
  ∧ slice_ok (append slack s xs arrs).2 s2.
Proof.
  intros Hok2 Hne. unfold append. case_decide.
  - destruct (sarr s) as [a|] eqn:Ha, xs as [|x xs]; simpl; try done.
    unfold elems, slice_ok in *. destruct (sarr s2) as [a2|]; [|done].
    assert (a ≠ a2) by (intros ->; by eapply Hne).
    by rewrite lookup_insert_ne.
  - simpl. unfold elems, slice_ok in *. destruct (sarr s2) as [a2|]; [|done].
    destruct Hok2 as (arr & Harr & Hle).
    assert (fresh (dom arrs) ≠ a2).
    { intros <-. apply (is_fresh (dom arrs)). apply elem_of_dom. by eexists. }
    rewrite lookup_insert_ne by done. split; [done|]. by eexists.
Qed.

(** Giving the Mux at [m] the slice [append] returns for [s]: its chain is
    the elements of [s] followed by the new ones, every other chain is as
    before, and the heap stays well-formed. *)
Lemma heap_ok_append hp m s xs M' :
  heap_ok hp → slice_ok (arrays hp) s →
  (∀ m2 M2 a, m2 ≠ m → muxes hp !! m2 = Some M2 →
     sarr s = Some a → sarr (middlewares M2) ≠ Some a) →
  middlewares M' = (append slack s xs (arrays hp)).1 →
  let hp' := setMux m M' (setArrays (append slack s xs (arrays hp)).2 hp) in
  heap_ok hp'
  ∧ chain hp' m = elems (arrays hp) s ++ xs
  ∧ (∀ m2, m2 ≠ m → chain hp' m2 = chain hp m2).
Proof.
  intros [Hsl Hsh] Hs Hne HM'. simpl.
  destruct (append_elems s xs (arrays hp) Hs) as [Hel Hok'].
  assert (Hfr : ∀ m2 M2, m2 ≠ m → muxes hp !! m2 = Some M2 →
            elems (append slack s xs (arrays hp)).2 (middlewares M2)
              = elems (arrays hp) (middlewares M2)
            ∧ slice_ok (append slack s xs (arrays hp)).2 (middlewares M2)).
  { intros m2 M2 Hm2 HM2. apply append_frame; [by eapply Hsl|].
    intros a Ha. by eapply Hne. }
  split_and!.
  - split.
    + intros m0 M0. unfold setMux, setArrays. simpl.
      destruct (decide (m0 = m)) as [->|Hm0].
      * rewrite lookup_insert_eq. intros [= <-]. by rewrite HM'.
      * rewrite lookup_insert_ne by done. intros HM0. by apply (Hfr m0 M0).
    + intros m1 m2 M1 M2 a. unfold setMux, setArrays. simpl.
      destruct (decide (m1 = m)) as [->|Hm1], (decide (m2 = m)) as [->|Hm2]; [done|..];
        rewrite ?lookup_insert_eq, ?lookup_insert_ne by done.
      * intros [= <-] HM2 Ha1 Ha2. rewrite HM' in Ha1. exfalso.
        destruct (append_arr s xs (arrays hp)) as [Heq|(a' & Ha' & Hnone)].
        -- rewrite Heq in Ha1. by eapply (Hne m2 M2 a).
        -- rewrite Ha' in Ha1. injection Ha1 as ->.
           pose proof (Hsl m2 M2 HM2) as Hok2. unfold slice_ok in Hok2. rewrite Ha2 in Hok2.
           destruct Hok2 as (arr & Harr & _). congruence.
      * intros HM1 [= <-] Ha1 Ha2. rewrite HM' in Ha2. exfalso.
        destruct (append_arr s xs (arrays hp)) as [Heq|(a' & Ha' & Hnone)].
        -- rewrite Heq in Ha2. by eapply (Hne m1 M1 a).
        -- rewrite Ha' in Ha2. injection Ha2 as ->.
           pose proof (Hsl m1 M1 HM1) as Hok1. unfold slice_ok in Hok1. rewrite Ha1 in Hok1.
           destruct Hok1 as (arr & Harr & _). congruence.
      * by apply Hsh.
  - unfold chain, setMux, setArrays. simpl. rewrite lookup_insert_eq. by rewrite HM'.
  - intros m2 Hm2. unfold chain, setMux, setArrays. simpl.
    rewrite lookup_insert_ne by done.
    destruct (muxes hp !! m2) as [M2|] eqn:HM2; [|done]. by apply (Hfr m2 M2).
Qed.

Lemma Use_spec hp m mw hp' :
  heap_ok hp → Use slack m mw hp = ok hp' →
  ∃ fns, nonNil mw = Some fns
    ∧ heap_ok hp'
    ∧ chain hp' m = chain hp m ++ fns
    ∧ (∀ m2, m2 ≠ m → chain hp' m2 = chain hp m2).
Proof.
  intros Hok. unfold Use. destruct (nonNil mw) as [fns|]; [|done].
  unfold getMux. destruct (muxes hp !! m) as [M|] eqn:HM; [|done]. simpl.
  destruct (append slack (middlewares M) fns (arrays hp)) as [s' arrs'] eqn:Happ.
  intros [= <-]. exists fns. split; [done|].
  pose proof (heap_ok_append hp m (middlewares M) fns
    (mkMux (router M) s' (prefix M) (mux_notFound M) (mux_methodNotAllowed M)) Hok) as Hap.
  rewrite Happ in Hap. simpl in Hap.
  destruct Hap as (H1 & H2 & H3).
  - by apply Hok in HM.
  - intros m2 M2 a Hm2 HM2 Ha Ha2. destruct Hok as [_ Hsh]. apply Hm2. by eapply Hsh.
  - done.
  - split_and!; try done. rewrite H2. unfold chain. by rewrite HM.
Qed.

Lemma deriveMux_spec hp m M pfx :
  heap_ok hp → muxes hp !! m = Some M →
  let child := (deriveMux slack M pfx hp).1 in
  let hp' := (deriveMux slack M pfx hp).2 in
  muxes hp !! child = None
  ∧ heap_ok hp'
  ∧ chain hp' child = chain hp m
  ∧ (∀ m2, m2 ≠ child → chain hp' m2 = chain hp m2)
  ∧ (∃ sc, muxes hp' !! child = Some (mkMux (router M) sc pfx None None)
           ∧ ∀ a, sarr sc = Some a → arrays hp !! a = None)
  ∧ (∀ m2, m2 ≠ child → muxes hp' !! m2 = muxes hp !! m2)
  ∧ routers hp' = routers hp.
Proof.
  intros Hok HM. unfold deriveMux.
  destruct (append slack nilSlice (elems (arrays hp) (middlewares M)) (arrays hp))
    as [sc arrs'] eqn:Happ. simpl.
  pose proof (heap_ok_append hp (fresh (dom (muxes hp))) nilSlice
    (elems (arrays hp) (middlewares M)) (mkMux (router M) sc pfx None None) Hok) as Hap.
  rewrite Happ in Hap. simpl in Hap.
  destruct Hap as (H1 & H2 & H3); [done|done|done|].
  split_and!; try done.
  - apply not_elem_of_dom, is_fresh.
  - rewrite H2. unfold chain. by rewrite HM.
  - exists sc. split; [by rewrite lookup_insert_eq|].
    intros a Ha. destruct (append_arr nilSlice (elems (arrays hp) (middlewares M)) (arrays hp))
      as [Heq|(a' & Ha' & Hnone)]; rewrite Happ in *; simpl in *; congruence.
  - intros m2 Hm2. by rewrite lookup_insert_ne.
Qed.

Lemma bind_ok {A B : Type} (x : result A) (f : A → result B) (b : B) :
  x ≫= f = ok b → ∃ a, x = ok a ∧ f a = ok b.
Proof. destruct x as [a|msg]; [by exists a|done]. Qed.

(** A step that keeps every slice and every array keeps the chains. *)
Lemma heap_ok_same hp hp' :
  (∀ m, middlewares <$> muxes hp' !! m = middlewares <$> muxes hp !! m) →
  arrays hp' = arrays hp →
  heap_ok hp → heap_ok hp' ∧ ∀ m, chain hp' m = chain hp m.
Proof.
  intros Hmw Harr [Hsl Hsh]. split; [split|].
  - intros m M' HM'. pose proof (Hmw m) as Hm. rewrite HM' in Hm.
    destruct (muxes hp !! m) as [M|] eqn:HM; [|done]. simpl in Hm. injection Hm as ->.
    rewrite Harr. by eapply Hsl.
  - intros m1 m2 M1' M2' a HM1' HM2' Ha1 Ha2.
    pose proof (Hmw m1) as Hm1. pose proof (Hmw m2) as Hm2. rewrite HM1' in Hm1. rewrite HM2' in Hm2.
    destruct (muxes hp !! m1) as [M1|] eqn:HM1; [|done].
    destruct (muxes hp !! m2) as [M2|] eqn:HM2; [|done].
    simpl in *. injection Hm1 as Hm1. injection Hm2 as Hm2.
    eapply (Hsh m1 m2 M1 M2 a); congruence.
  - intros m. unfold chain. pose proof (Hmw m) as Hm. rewrite Harr.
    destruct (muxes hp' !! m), (muxes hp !! m); simpl in *; congruence.
Qed.

Lemma New_spec hp :
  heap_ok hp → heap_ok (New hp).2 ∧ ∀ m, chain (New hp).2 m = chain hp m.
Proof.
  intros Hok. unfold New. simpl.
  pose proof (heap_ok_append hp (fresh (dom (muxes hp))) nilSlice []
    (mkMux (fresh (dom (routers hp))) nilSlice "" None None) Hok) as Hap.
  destruct Hap as (H1 & H2 & H3); [done|done|done|].
  assert (Hnone : muxes hp !! fresh (dom (muxes hp)) = None) by apply not_elem_of_dom, is_fresh.
  split.
  - destruct H1 as [Hsl Hsh]. split; [exact Hsl|exact Hsh].
  - intros m. destruct (decide (m = fresh (dom (muxes hp)))) as [->|Hm].
    + unfold chain at 2. rewrite Hnone. unfold chain. simpl. by rewrite lookup_insert_eq.
    + rewrite <- (H3 m Hm). done.
Qed.

Lemma setMux_same_slice hp m M M' :
  heap_ok hp → muxes hp !! m = Some M → middlewares M' = middlewares M →
  heap_ok (setMux m M' hp) ∧ ∀ m2, chain (setMux m M' hp) m2 = chain hp m2.
Proof.
  intros Hok HM Hmw. apply heap_ok_same; [|done|done].
  intros m0. unfold setMux. simpl. destruct (decide (m0 = m)) as [->|Hne].
  - rewrite lookup_insert_eq, HM. simpl. by rewrite Hmw.
  - by rewrite lookup_insert_ne.
Qed.

Lemma wrapLoop_take (mws : list Middleware) (i : nat) : ∀ h,
  (i ≤ length mws)%nat → wrapLoop mws i h = ok (compose (take i mws) h).
Proof.
  induction i as [|j IH]; intros h Hle; simpl; [done|].
  destruct (mws !! j) as [mw|] eqn:Hj.
  - rewrite IH by lia. f_equal. unfold compose.
    rewrite (take_S_r mws j mw Hj), foldr_app. done.
  - apply lookup_ge_None in Hj. unfold Middleware in *. lia.
Qed.

Lemma wrap_spec hp m M h :
  heap_ok hp → muxes hp !! m = Some M →
  wrap m M h hp = ok (λ r, Rewrap m r (compose (chain hp m) h r) Return).
Proof.
  intros [Hsl _] HM. unfold wrap.
  pose proof (elems_length _ _ (Hsl m M HM)) as Hlen.
  rewrite wrapLoop_take by lia. simpl.
  rewrite <- Hlen, firstn_all. unfold chain. by rewrite HM.
Qed.

Lemma Handle_spec hp m M pattern h hp' :
  heap_ok hp → muxes hp !! m = Some M → Handle registerErr m pattern (Some h) hp = ok hp' →
  ∃ table, routers hp !! router M = Some table
    ∧ hp' = mkHeap (muxes hp) (arrays hp)
              (<[router M := table ++ [(prefixPattern M pattern,
                   λ r, Rewrap m r (compose (chain hp m) h r) Return)]]> (routers hp)).
Proof.
  intros Hok HM. unfold Handle, getMux. rewrite HM. simpl.
  rewrite (wrap_spec hp m M h Hok HM). simpl. unfold routerHandle.
  destruct (routers hp !! router M) as [table|]; [|done].
  destruct (registerErr table (prefixPattern M pattern)); [done|].
  intros [= <-]. by exists table.
Qed.

Lemma registration_keeps hp m pattern h hp' :
  heap_ok hp →
  (Handle registerErr m pattern h hp = ok hp' ∨ HandleFunc registerErr m pattern h hp = ok hp') →
  heap_ok hp' ∧ ∀ m2, chain hp' m2 = chain hp m2.
Proof.
  intros Hok Hh.
  assert (muxes hp' = muxes hp ∧ arrays hp' = arrays hp) as [Hm Ha].
  { destruct Hh as [Hh|Hh]; unfold Handle, HandleFunc, getMux in Hh;
      (destruct h as [h|]; [|done]);
      (destruct (muxes hp !! m) as [M|]; [|done]); simpl in Hh;
      (destruct (wrap m M h hp) as [w|]; [|done]); simpl in Hh;
      unfold routerHandle in Hh;
      (destruct (routers hp !! router M) as [table|]; [|done]);
      (destruct (registerErr table (prefixPattern M pattern)); [done|]);
      by injection Hh as <-. }
  apply heap_ok_same; [|done|done]. intros m0. by rewrite Hm.
Qed.

(** Whatever setup code does, the heap stays well-formed and every chain
    only grows at its end. *)
Lemma run_extends (s : script) : ∀ hp hp',
  heap_ok hp → run slack registerErr s hp = ok hp' →
  heap_ok hp' ∧ ∀ m, chain hp m `prefix_of` chain hp' m.
Proof.
  induction s as [|k IH|m mw k IH|m fn IHfn k IH|m k IH|m pfx fn IHfn k IH|m pfx k IH
                  |m pattern h k IH|m pattern h k IH|m h k IH|m h k IH];
    intros hp hp' Hok; simpl.
  - by intros [= <-].
  - change (run slack registerErr (k (New hp).1) (New hp).2 = ok hp' → 
            heap_ok hp' ∧ ∀ m, chain hp m `prefix_of` chain hp' m).
    intros Hrun. destruct (New_spec hp Hok) as [Hok1 Hch].
    destruct (IH _ _ hp' Hok1 Hrun) as [Hok' Hpre]. split; [done|].
    intros m0. rewrite <- Hch. apply Hpre.
  - intros (hp1 & HU & Hrun)%bind_ok.
    destruct (Use_spec hp m mw hp1 Hok HU) as (fns & _ & Hok1 & Hm & Hother).
    destruct (IH hp1 hp' Hok1 Hrun) as [Hok' Hpre]. split; [done|].
    intros m0. etrans; [|apply Hpre].
    destruct (decide (m0 = m)) as [->|Hne].
    + rewrite Hm. by apply prefix_app_r.
    + by rewrite Hother.
  - intros (hp2 & HG & Hrun)%bind_ok. unfold Group, getMux in HG.
    destruct (muxes hp !! m) as [M|] eqn:HM; [|done]. simpl in HG.
    destruct (deriveMux_spec hp m M (prefix M) Hok HM) as (Hfresh & Hok1 & _ & Hother & _).
    destruct (deriveMux slack M (prefix M) hp) as [child hp1]. simpl in *.
    destruct (IHfn child hp1 hp2 Hok1 HG) as [Hok2 Hpre2].
    destruct (IH hp2 hp' Hok2 Hrun) as [Hok' Hpre]. split; [done|].
    intros m0. etrans; [|apply Hpre]. etrans; [|apply Hpre2].
    destruct (decide (m0 = child)) as [->|Hne].
    + unfold chain at 1. rewrite Hfresh. apply prefix_nil.
    + by rewrite Hother.
  - done.
  - intros (hp2 & HG & Hrun)%bind_ok. unfold Route, getMux in HG.
    destruct (muxes hp !! m) as [M|] eqn:HM; [|done]. simpl in HG.
    destruct (deriveMux_spec hp m M (prefix M +:+ pfx) Hok HM) as (Hfresh & Hok1 & _ & Hother & _).
    destruct (deriveMux slack M (prefix M +:+ pfx) hp) as [child hp1]. simpl in *.
    destruct (IHfn child hp1 hp2 Hok1 HG) as [Hok2 Hpre2].
    destruct (IH hp2 hp' Hok2 Hrun) as [Hok' Hpre]. split; [done|].
    intros m0. etrans; [|apply Hpre]. etrans; [|apply Hpre2].
    destruct (decide (m0 = child)) as [->|Hne].
    + unfold chain at 1. rewrite Hfresh. apply prefix_nil.
    + by rewrite Hother.
  - done.
  - intros (hp1 & HH & Hrun)%bind_ok.
    destruct (registration_keeps hp m pattern h hp1 Hok (or_introl HH)) as [Hok1 Hch].
    destruct (IH hp1 hp' Hok1 Hrun) as [Hok' Hpre]. split; [done|].
    intros m0. rewrite <- Hch. apply Hpre.
  - intros (hp1 & HH & Hrun)%bind_ok.
    destruct (registration_keeps hp m pattern h hp1 Hok (or_intror HH)) as [Hok1 Hch].
    destruct (IH hp1 hp' Hok1 Hrun) as [Hok' Hpre]. split; [done|].
    intros m0. rewrite <- Hch. apply Hpre.
  - intros (hp1 & HW & Hrun)%bind_ok. unfold WithNotFound, getMux in HW.
    destruct (muxes hp !! m) as [M|] eqn:HM; [|done]. simpl in HW. injection HW as <-.
    destruct (setMux_same_slice hp m M
      (mkMux (router M) (middlewares M) (prefix M) h (mux_methodNotAllowed M)) Hok HM eq_refl)
      as [Hok1 Hch].
    destruct (IH _ hp' Hok1 Hrun) as [Hok' Hpre]. split; [done|].
    intros m0. rewrite <- Hch. apply Hpre.
  - intros (hp1 & HW & Hrun)%bind_ok. unfold WithMethodNotAllowed, getMux in HW.
    destruct (muxes hp !! m) as [M|] eqn:HM; [|done]. simpl in HW. injection HW as <-.
    destruct (setMux_same_slice hp m M
      (mkMux (router M) (middlewares M) (prefix M) (mux_notFound M) h) Hok HM eq_refl)
      as [Hok1 Hch].
    destruct (IH _ hp' Hok1 Hrun) as [Hok' Hpre]. split; [done|].
    intros m0. rewrite <- Hch. apply Hpre.
Qed.

Lemma emptyHeap_ok : heap_ok emptyHeap.
Proof. split; simpl; intros *; by rewrite lookup_empty. Qed.
End HeapFacts.

(** * Patterns and prefixes *)

Lemma pathStartFrom_app (verb rest : string) : ∀ i,
  noSlash verb = true →
  pathStartFrom i (verb +:+ String "/" rest) = (i + String.length verb)%nat.
Proof.
  induction verb as [|c verb IH]; intros i; simpl.
  - intros _. lia.
  - intros [Hc Hv]%andb_prop. apply negb_true_iff in Hc. rewrite Hc.
    rewrite IH by done. lia.
Qed.

Lemma pathStartFrom_noSlash (pattern : string) : ∀ i,
  noSlash pattern = true → pathStartFrom i pattern = 0%nat.
Proof.
  induction pattern as [|c p IH]; intros i; simpl; [done|].
  intros [Hc Hv]%andb_prop. apply negb_true_iff in Hc. rewrite Hc. by apply IH.
Qed.

Lemma substring_all (s : string) : String.substring 0 (String.length s) s = s.
Proof. induction s as [|c s IH]; simpl; [done|]. by rewrite IH. Qed.

Lemma substring_app_l (s t : string) :
  String.substring 0 (String.length s) (s +:+ t) = s.
Proof.
  induction s as [|c s IH]; simpl.
  - by destruct t.
  - by rewrite IH.
Qed.

Lemma substring_app_r (s t : string) :
  String.substring (String.length s) (String.length (s +:+ t) - String.length s) (s +:+ t) = t.
Proof.
  induction s as [|c s IH]; simpl.
  - rewrite Nat.sub_0_r. apply substring_all.
  - apply IH.
Qed.

(** Every pattern with a '/' splits at its first '/'. *)
Lemma pattern_split (pattern : string) :
  noSlash pattern = false →
  ∃ verb rest, pattern = verb +:+ String "/" rest ∧ noSlash verb = true.
Proof.
  induction pattern as [|c p IH]; simpl; [done|].
  destruct (Ascii.eqb_spec c "/") as [->|Hc]; simpl.
  - intros _. by exists "", p.
  - intros (verb & rest & -> & Hv)%IH. exists (String c verb), rest. split; [done|].
    simpl. destruct (Ascii.eqb_spec c "/"); [done|]. by rewrite Hv.
Qed.

Lemma prefixPattern_spec (M : Mux) (verb rest : string) :
  prefix M ≠ "" → noSlash verb = true →
  prefixPattern M (verb +:+ String "/" rest) = verb +:+ prefix M +:+ String "/" rest.
Proof.
  intros Hp Hv. unfold prefixPattern.
  destruct (String.eqb_spec (prefix M) "") as [|_]; [done|].
  rewrite (pathStartFrom_app verb rest 0 Hv). simpl.
  by rewrite substring_app_l, substring_app_r.
Qed.

Lemma prefixPattern_noSlash (M : Mux) (pattern : string) :
  noSlash pattern = true → prefixPattern M pattern = prefix M +:+ pattern.
Proof.
  intros Hv. unfold prefixPattern.
  destruct (String.eqb_spec (prefix M) "") as [->|_]; [done|].
  rewrite (pathStartFrom_noSlash pattern 0 Hv). simpl.
  rewrite Nat.sub_0_r, substring_all. by destruct pattern.
Qed.

(** * Composition, isolation, prefixes, derived scopes *)

Section ChainTheorems.
Variable slack : nat → nat → nat.
Variable registerErr : list (string * Handler) → string → option string.

Lemma Group_eq hp m M fn :
  muxes hp !! m = Some M →
  Group slack m (Some fn) hp
    = fn (deriveMux slack M (prefix M) hp).1 (deriveMux slack M (prefix M) hp).2.
Proof.
  intros HM. unfold Group, getMux. rewrite HM. simpl.
  by destruct (deriveMux slack M (prefix M) hp).
Qed.

Lemma Route_eq hp m M pfx fn :
  muxes hp !! m = Some M →
  Route slack m pfx (Some fn) hp
    = fn (deriveMux slack M (prefix M +:+ pfx) hp).1 (deriveMux slack M (prefix M +:+ pfx) hp).2.
Proof.
  intros HM. unfold Route, getMux. rewrite HM. simpl.
  by destruct (deriveMux slack M (prefix M +:+ pfx) hp).
Qed.

(** A chain of tracing middleware around a handler: the notes before, the
    handler, the notes after in reverse. *)
Lemma exec_tracing {T : Type} `{Sink T} (names : list (string * string)) (h : Handler)
    (r : option Request) (n : nat) : ∀ (rw : responseWriter T) (l : log),
  exec (S n) (compose ((λ x, tracing x.1 x.2) <$> names) h r) rw l =
  match exec (S n) (h r) rw (l ++ names.*1) with
  | Some (rw', l') => Some (rw', l' ++ reverse names.*2)
  | None => None
  end.
Proof.
  induction names as [|[b a] names IH]; intros rw l; simpl.
  - rewrite app_nil_r. destruct (exec (S n) (h r) rw l) as [[rw' l']|]; [|done].
    by rewrite app_nil_r.
  - unfold tracing at 1. rewrite exec_unfold, exec_seq.
    fold (compose ((λ x, tracing x.1 x.2) <$> names) h).
    rewrite IH. rewrite <- (assoc_L (++) l [b]). simpl.
    change (list_fmap _ _ fst names) with (names.*1).
    change (list_fmap _ _ snd names) with (names.*2).
    destruct (exec (S n) (h r) rw (l ++ b :: names.*1)) as [[rw' l']|]; [|done].
    rewrite !exec_unfold. by rewrite reverse_cons, (assoc_L (++)).
Qed.

(** C2. [wrap] applies the chain from its last middleware to its first, so
    the first registered is outermost; [Use] appends in argument order; and
    for middleware that note a line before and after calling the next
    handler, running the composed handler yields the notes before in
    registration order, then what the leaf handler does, then the notes
    after in reverse order, for every length of the chain; the run returns. *)
Theorem middleware_order hp m M (h : Handler) :
  heap_ok hp → muxes hp !! m = Some M →
  wrap m M h hp = ok (λ r, Rewrap m r (compose (chain hp m) h r) Return)
  ∧ (∀ mw hp', Use slack m mw hp = ok hp' →
       ∃ fns, nonNil mw = Some fns ∧ chain hp' m = chain hp m ++ fns)
  ∧ ∀ (names : list (string * string)),
      chain hp m = (λ x, tracing x.1 x.2) <$> names →
      ∀ (T : Type) (HS : Sink T) (n : nat) (r : option Request) (rw : responseWriter T) (l : log),
        ∃ rw' l',
          exec (S (S n)) (h r) rw (l ++ names.*1) = Some (rw', l')
          ∧ exec (S (S n)) (Rewrap m r (compose (chain hp m) h r) Return) rw l
            = Some (rw', l' ++ reverse names.*2).
Proof.
  intros Hok HM. split_and!.
  - by apply wrap_spec.
  - intros mw hp' HU. destruct (Use_spec slack hp m mw hp' Hok HU) as (fns & ? & _ & ? & _).
    by exists fns.
  - intros names Hch T HS n r rw l.
    destruct (exec_enough (h r) n rw (l ++ names.*1)) as [Hfuel [[rw' l'] Hleaf]].
    exists rw', l'. rewrite Hfuel. split; [done|].
    rewrite exec_unfold, Hch, exec_tracing, Hfuel, Hleaf. by rewrite exec_unfold.
Qed.

Lemma deriveMux_child hp M pfx :
  let child := (deriveMux slack M pfx hp).1 in
  let hp1 := (deriveMux slack M pfx hp).2 in
  muxes hp !! child = None
  ∧ (∃ sc, muxes hp1 !! child = Some (mkMux (router M) sc pfx None None))
  ∧ (∀ m2, m2 ≠ child → muxes hp1 !! m2 = muxes hp !! m2)
  ∧ routers hp1 = routers hp.
Proof.
  unfold deriveMux.
  destruct (append slack nilSlice (elems (arrays hp) (middlewares M)) (arrays hp)) as [sc arrs'].
  simpl. split_and!.
  - apply not_elem_of_dom, is_fresh.
  - exists sc. by rewrite lookup_insert_eq.
  - intros m2 Hm2. by rewrite lookup_insert_ne.
  - done.
Qed.

Lemma Handle_pattern hp m M pattern h hp' :
  muxes hp !! m = Some M →
  (Handle registerErr m pattern (Some h) hp = ok hp'
   ∨ HandleFunc registerErr m pattern (Some h) hp = ok hp') →
  ∃ table H,
    routers hp !! router M = Some table
    ∧ routers hp' = <[router M := table ++ [(prefixPattern M pattern, H)]]> (routers hp).
Proof.
  intros HM Hh.
  destruct Hh as [Hh|Hh]; unfold Handle, HandleFunc, getMux in Hh; rewrite HM in Hh;
    simpl in Hh; (destruct (wrap m M h hp) as [w|]; [|done]); simpl in Hh;
    unfold routerHandle in Hh;
    (destruct (routers hp !! router M) as [table|]; [|done]);
    (destruct (registerErr table (prefixPattern M pattern)); [done|]);
    injection Hh as <-; by exists table, w.
Qed.

(** C7. The child Mux that [Group] and [Route] hand to their callback is a
    new Mux whose chain equals the parent's at that moment, on a backing
    array of its own; every other chain is as before. From then on,
    whatever setup code runs, the parent's chain at derivation time stays a
    prefix of the child's, so it is part of every handler registered
    through the child; and [Use] on one Mux appends to that Mux's chain
    and changes no other: not the child's when the parent is extended, not
    the parent's when the child is. *)
Theorem scope_isolation hp m M (pfx : string) :
  heap_ok hp → muxes hp !! m = Some M →
  let child := (deriveMux slack M pfx hp).1 in
  let hp1 := (deriveMux slack M pfx hp).2 in
  (∀ fn, Group slack m (Some fn) hp
         = fn (deriveMux slack M (prefix M) hp).1 (deriveMux slack M (prefix M) hp).2)
  ∧ (∀ p fn, Route slack m p (Some fn) hp
             = fn (deriveMux slack M (prefix M +:+ p) hp).1
                  (deriveMux slack M (prefix M +:+ p) hp).2)
  ∧ muxes hp !! child = None
  ∧ (∃ sc, muxes hp1 !! child = Some (mkMux (router M) sc pfx None None)
           ∧ ∀ a, sarr sc = Some a → arrays hp !! a = None)
  ∧ chain hp1 child = chain hp m
  ∧ (∀ m2, m2 ≠ child → chain hp1 m2 = chain hp m2)
  ∧ ∀ s hp2, run slack registerErr s hp1 = ok hp2 →
      chain hp m `prefix_of` chain hp2 child
      ∧ (∀ m1 mw hp3, Use slack m1 mw hp2 = ok hp3 →
           ∃ fns, nonNil mw = Some fns
             ∧ chain hp3 m1 = chain hp2 m1 ++ fns
             ∧ ∀ m2, m2 ≠ m1 → chain hp3 m2 = chain hp2 m2)
      ∧ (∀ Mc pattern h hp3,
           muxes hp2 !! child = Some Mc → Handle registerErr child pattern (Some h) hp2 = ok hp3 →
           ∃ table,
             routers hp2 !! router Mc = Some table
             ∧ routers hp3 !! router Mc =
                 Some (table ++ [(prefixPattern Mc pattern,
                                  λ r, Rewrap child r (compose (chain hp2 child) h r) Return)])).
Proof.
  intros Hok HM.
  destruct (deriveMux_spec slack hp m M pfx Hok HM)
    as (Hfresh & Hok1 & Hcopy & Hother & Hchild & _ & _).
  simpl. split_and!; try done.
  - intros fn. by apply Group_eq.
  - intros p fn. by apply Route_eq.
  - intros s hp2 Hrun.
    destruct (run_extends slack registerErr s _ hp2 Hok1 Hrun) as [Hok2 Hpre]. split_and!.
    + rewrite <- Hcopy. apply Hpre.
    + intros m1 mw hp3 HU.
      destruct (Use_spec slack hp2 m1 mw hp3 Hok2 HU) as (fns & ? & _ & ? & ?).
      by exists fns.
    + intros Mc pattern h hp3 HMc HH.
      destruct (Handle_spec registerErr hp2 _ Mc pattern h hp3 Hok2 HMc HH) as (table & Ht & ->).
      exists table. split; [done|]. simpl. by rewrite lookup_insert_eq.
Qed.

(** C8. On a Mux with a prefix, [prefixPattern] puts the prefix in front of
    the first '/' of the pattern and keeps what stands before it, the verb
    token if there is one; on a Mux without prefix the pattern stays as it
    is. [Route] gives the child the parent's prefix followed by its
    argument, and [Handle] and [HandleFunc] register under the prefixed
    pattern. *)
Theorem prefix_composition hp m M (pfx verb rest : string) :
  muxes hp !! m = Some M → noSlash verb = true →
  let child := (deriveMux slack M (prefix M +:+ pfx) hp).1 in
  let hp1 := (deriveMux slack M (prefix M +:+ pfx) hp).2 in
  (prefix M ≠ "" →
     prefixPattern M (verb +:+ "/" +:+ rest) = verb +:+ prefix M +:+ "/" +:+ rest)
  ∧ (prefix M = "" → prefixPattern M (verb +:+ "/" +:+ rest) = verb +:+ "/" +:+ rest)
  ∧ (∀ fn, Route slack m pfx (Some fn) hp = fn child hp1)
  ∧ (∃ sc, muxes hp1 !! child = Some (mkMux (router M) sc (prefix M +:+ pfx) None None))
  ∧ (∀ pattern h hp',
       Handle registerErr m pattern (Some h) hp = ok hp'
       ∨ HandleFunc registerErr m pattern (Some h) hp = ok hp' →
       ∃ table H,
         routers hp !! router M = Some table
         ∧ routers hp' !! router M = Some (table ++ [(prefixPattern M pattern, H)])).
Proof.
  intros HM Hv. simpl. split_and!.
  - intros Hp. by apply prefixPattern_spec.
  - intros Hp. unfold prefixPattern. by rewrite Hp.
  - intros fn. by apply Route_eq.
  - apply deriveMux_child.
  - intros pattern h hp' HH.
    destruct (Handle_pattern hp m M pattern h hp' HM HH) as (table & H & Ht & Hr).
    exists table, H. split; [done|]. rewrite Hr. by rewrite lookup_insert_eq.
Qed.

(** C10. The child that [Group] and [Route] build takes the parent's
    router, a copy of its chain and the prefix, and has no not-found and no
    method-not-allowed handler, whatever the parent has; the parent keeps
    its own. [ServeHTTP] on a Mux wraps the sink with the handlers of that
    Mux and of no other: it returns for every request, and gives the same
    result in every heap in which this Mux and its router's table are the
    same, whatever handlers other Mux values carry; on the wrapped writer
    the closure [wrap] built for a route runs the route's handler as it is,
    without looking at the Mux the route was registered on. *)
Theorem derived_mux_handlers hp m M (pfx : string) :
  muxes hp !! m = Some M →
  let child := (deriveMux slack M pfx hp).1 in
  let hp1 := (deriveMux slack M pfx hp).2 in
  (∀ fn, Group slack m (Some fn) hp
         = fn (deriveMux slack M (prefix M) hp).1 (deriveMux slack M (prefix M) hp).2)
  ∧ (∀ p fn, Route slack m p (Some fn) hp
             = fn (deriveMux slack M (prefix M +:+ p) hp).1
                  (deriveMux slack M (prefix M +:+ p) hp).2)
  ∧ (∃ sc, muxes hp1 !! child = Some (mkMux (router M) sc pfx None None))
  ∧ muxes hp1 !! m = Some M
  ∧ ∀ (T : Type) (HS : Sink T) (serveMux : list (string * Handler) → option Request → prog)
      (w : rawWriter T) (r : option Request) (l : log),
      (∀ table, routers hp !! router M = Some table →
         ∃ res,
           ServeHTTP serveMux m w r hp l = ok res
           ∧ ∀ n, exec (S (S n)) (serveMux table r)
                    (wrapResponseWriter w r (mux_notFound M) (mux_methodNotAllowed M)) l
                  = Some res)
      ∧ (∀ table, routers hp1 !! router M = Some table →
           ∃ res,
             ServeHTTP serveMux child w r hp1 l = ok res
             ∧ ∀ n, exec (S (S n)) (serveMux table r) (wrapResponseWriter w r None None) l
                    = Some res)
      ∧ (∀ hp2, muxes hp2 !! m = Some M →
           routers hp2 !! router M = routers hp !! router M →
           ServeHTTP serveMux m w r hp2 l = ServeHTTP serveMux m w r hp l)
      ∧ (∀ m' inner n (rw : responseWriter T),
           exec (S n) (Rewrap m' r inner Return) rw l = exec (S n) inner rw l).
Proof.
  intros HM. destruct (deriveMux_child hp M pfx) as (Hfresh & [sc Hchild] & Hother & Hr).
  simpl. split_and!.
  - intros fn. by apply Group_eq.
  - intros p fn. by apply Route_eq.
  - by exists sc.
  - rewrite Hother; [done|]. intros ->. congruence.
  - intros T HS serveMux w r l. split_and!.
    + intros table Ht. unfold ServeHTTP, getMux, wrapWriter. rewrite HM. simpl. rewrite Ht.
      destruct (exec_enough (serveMux table r) 0
                  (wrapResponseWriter w r (mux_notFound M) (mux_methodNotAllowed M)) l)
        as [_ [res Hres]].
      rewrite Hres. exists res. split; [done|]. intros n.
      by destruct (exec_enough (serveMux table r) n
                     (wrapResponseWriter w r (mux_notFound M) (mux_methodNotAllowed M)) l)
        as [-> _].
    + intros table Ht. unfold ServeHTTP, getMux, wrapWriter. rewrite Hchild. simpl. rewrite Ht.
      destruct (exec_enough (serveMux table r) 0 (wrapResponseWriter w r None None) l)
        as [_ [res Hres]].
      rewrite Hres. exists res. split; [done|]. intros n.
      by destruct (exec_enough (serveMux table r) n (wrapResponseWriter w r None None) l)
        as [-> _].
    + intros hp2 HM2 Hr2. unfold ServeHTTP, getMux. rewrite HM, HM2. simpl. by rewrite Hr2.
    + intros m' inner n rw. rewrite exec_unfold.
      destruct (exec (S n) inner rw l) as [[rw' l']|]; [|done]. by rewrite exec_unfold.
Qed.
End ChainTheorems.

(** * The theorems at the inputs of the test suite *)

Lemma heapOf_ok (s : script) : heap_ok (heapOf s).
Proof.
  unfold heapOf. destruct (run doubling strictCheck s emptyHeap) as [hp|msg] eqn:Hrun.
  - by destruct (run_extends doubling strictCheck s emptyHeap hp emptyHeap_ok Hrun).
  - apply emptyHeap_ok.
Qed.


(** [TestNotFoundHandler]: the request for an unknown path gets the custom
    handler's status and body, none of the matcher's headers and none of its
    body. *)
Example not_found_end_to_end :
  let hp := heapOf parentSetup in
  (λ res, (Status res.1, body (impl (ResponseWriter res.1)), Header (ResponseWriter res.1),
           statusCode (impl (ResponseWriter res.1))))
    <$> (match ServeHTTP exactMatcher 0 newMockResponseWriter someRequest hp [] with
         | ok res => Some res
         | panic _ => None
         end)
  = Some (StatusNotFound, String.list_byte_of_string "Custom 404", ∅, StatusNotFound).
Proof. vm_compute. reflexivity. Qed.

Lemma interception_one_shot_witness :
  let rw0 := wrapResponseWriter mockWithHeaders someRequest (Some custom404) None in
  WriteHeader (exec 1) StatusNotFound rw0 []
    = Some (suppressed (execNormal (custom404 someRequest) (cleared rw0) []).1,
            (execNormal (custom404 someRequest) (cleared rw0) []).2)
  ∧ plain (execNormal (custom404 someRequest) (cleared rw0) []).1.
Proof.
  intros rw0.
  destruct (interception_one_shot 0 StatusNotFound rw0 [] custom404)
    as (_ & _ & _ & _ & Hw & Hp & _).
  - reflexivity.
  - reflexivity.
  - left. split; reflexivity.
  - split; assumption.
Defined.

(** The custom handler commits 404 itself: the commit reaches the sink once,
    and the matcher's body after it does not. *)
Example substitute_commits_404 :
  let rw0 := wrapResponseWriter mockWithHeaders someRequest (Some custom404) None in
  (λ res, (status res.1, written res.1, statusCode (impl (ResponseWriter res.1)),
           body (impl (ResponseWriter res.1)), ignoreWrites res.1))
    <$> exec 2 (httpError "404 page not found" StatusNotFound) rw0 []
  = Some (StatusNotFound, true, StatusNotFound, String.list_byte_of_string "Custom 404", true).
Proof. vm_compute. reflexivity. Qed.

Lemma writes_after_interception_discarded_witness :
  ∃ rw1 l1,
    WriteHeader (exec 1) StatusNotFound
      (wrapResponseWriter mockWithHeaders someRequest (Some custom404) None) []
      = Some (rw1, l1)
    ∧ ignoreWrites rw1 = true
    ∧ ∀ m p rw2 l2, exec m p rw1 l1 = Some (rw2, l2) →
        ∀ b, Write b rw2 = (rw2, (len b, None)).
Proof.
  apply (writes_after_interception_discarded 0 StatusNotFound
           (wrapResponseWriter mockWithHeaders someRequest (Some custom404) None) [] custom404).
  - reflexivity.
  - reflexivity.
  - left. split; reflexivity.
Defined.

(** [TestResponseWriter_DoubleWriteHeader]. *)
Lemma commit_idempotent_witness :
  ∃ rw1,
    WriteHeader (λ _ _ _, None) 202 (wrapResponseWriter newMockResponseWriter None None None) []
      = Some (rw1, [])
    ∧ WriteHeader (λ _ _ _, None) 400 rw1 [] = Some (rw1, [])
    ∧ ResponseWriter rw1 = rawWriteHeader 202 newMockResponseWriter
    ∧ status rw1 = 202%Z
    ∧ Status rw1 = 202%Z.
Proof.
  apply (commit_idempotent (λ _ _ _, None)
           (wrapResponseWriter newMockResponseWriter None None None) 202 400 []).
  - reflexivity.
  - reflexivity.
  - discriminate.
Defined.

(** The first status has to be an HTTP status: on a sink that takes 0, the
    sink receives 0 and the second commit is ignored, but [Status()] reads
    the recorded 0 as "no status yet" and reports 200. *)
Example first_commit_zero :
  let rw0 := wrapResponseWriter newMockResponseWriter None None None in
  written rw0 = false ∧ intercepting 0 rw0 = None
  ∧ ¬ first_commit_wins rw0 0 500.
Proof.
  split_and!; try done.
  intros Hc. destruct (Hc (λ _ _ _, None) []) as (rw1 & H1 & _ & _ & Hs).
  vm_compute in H1. injection H1 as <-. vm_compute in Hs. discriminate.
Qed.

Lemma write_accounting_witness :
  let rw0 := wrapResponseWriter newMockResponseWriter None None None in
  let a := String.list_byte_of_string "Hello, " in
  let b := String.list_byte_of_string "World!" in
  (Status rw0 = StatusOK ∧ Written rw0 = false ∧ Size rw0 = 0%Z)
  ∧ (Written (Write b rw0).1 = true ∧ Status (Write b rw0).1 = StatusOK)
  ∧ Size (Write b (Write a rw0).1).1 = 13%Z.
Proof.
  intros rw0 a b.
  destruct (write_accounting newMockResponseWriter None None None rw0 a b) as (H1 & H2 & H3).
  split; [exact H1|]. split.
  - destruct (H2 eq_refl) as (Hw & Hs & _). split; [exact Hw|]. apply Hs. reflexivity.
  - apply H3; [reflexivity|reflexivity|]. vm_compute. discriminate.
Defined.

(** [TestMultipleMiddlewareOrder]. *)
Lemma middleware_order_witness :
  snd <$> exec 2 (Rewrap 0 someRequest
                    (compose (chain (heapOf orderSetup) 0) (okHandler "handler") someRequest)
                    Return)
            (wrapResponseWriter newMockResponseWriter someRequest None None) []
  = Some ["middleware1-before"; "middleware2-before"; "handler";
          "middleware2-after"; "middleware1-after"].
Proof.
  destruct (middleware_order doubling (heapOf orderSetup) 0 (muxAt (heapOf orderSetup) 0)
              (okHandler "handler")) as (_ & _ & Horder).
  - apply heapOf_ok.
  - vm_compute. reflexivity.
  - destruct (Horder [("middleware1-before", "middleware1-after");
                      ("middleware2-before", "middleware2-after")] eq_refl
                mockResponseWriter _ 0%nat someRequest
                (wrapResponseWriter newMockResponseWriter someRequest None None) [])
      as (rw' & l' & Hleaf & ->).
    vm_compute in Hleaf. injection Hleaf as _ <-. reflexivity.
Defined.

Lemma scope_isolation_witness :
  let hp := heapOf parentSetup in
  let child := (deriveMux doubling (muxAt hp 0) "" hp).1 in
  let hp1 := (deriveMux doubling (muxAt hp 0) "" hp).2 in
  muxes hp !! child = None
  ∧ chain hp1 child = chain hp 0
  ∧ (∀ m2, m2 ≠ child → chain hp1 m2 = chain hp m2).
Proof.
  intros hp child hp1.
  destruct (scope_isolation doubling strictCheck hp 0 (muxAt hp 0) "")
    as (_ & _ & Hfresh & _ & Hcopy & Hother & _).
  - apply heapOf_ok.
  - vm_compute. reflexivity.
  - split; [exact Hfresh|]. split; [exact Hcopy|exact Hother].
Defined.

(** [TestGroups]: middleware the parent gets after the group, and middleware
    the group gets, stay where they were put. *)
Example group_isolation_example :
  let late := tracing "late-before" "late-after" in
  let auth := tracing "auth-before" "auth-after" in
  let hp :=
    heapOf (DoNew (λ mux,
      DoUse mux [Some (tracing "global-before" "global-after")]
        (DoGroup mux (λ api, DoUse api [Some auth] Done)
           (DoUse mux [Some late] Done)))) in
  chain hp 0 = [tracing "global-before" "global-after"; late]
  ∧ chain hp 1 = [tracing "global-before" "global-after"; auth].
Proof. split; vm_compute; reflexivity. Qed.

Lemma prefix_composition_witness :
  let hp := heapOf routeSetup in
  let M := muxAt hp 1 in
  prefix M = "/api"
  ∧ prefixPattern M "GET /users" = "GET /api/users"
  ∧ prefixPattern M "/health" = "/api/health"
  ∧ ∃ sc, muxes (deriveMux doubling M "/api/v1" hp).2 !! (deriveMux doubling M "/api/v1" hp).1
          = Some (mkMux (router M) sc "/api/v1" None None).
Proof.
  intros hp M.
  destruct (prefix_composition doubling strictCheck hp 1 M "/v1" "GET " "users") as (H1 & _ & _ & H4 & _).
  - vm_compute. reflexivity.
  - reflexivity.
  - destruct (prefix_composition doubling strictCheck hp 1 M "/v1" "" "health") as (H1' & _).
    + vm_compute. reflexivity.
    + reflexivity.
    + split; [reflexivity|]. split; [apply H1; discriminate|].
      split; [apply H1'; discriminate|exact H4].
Defined.

(** [TestNestedRoutePrefix], [TestRoutePrefixWithPatternWithoutMethod]. *)
Example nested_prefix_example :
  (λ table, table.*1) <$> (routers (heapOf prefixSetup) !! 0)
  = Some ["GET /api/v1/users"; "/api/health"].
Proof. vm_compute. reflexivity. Qed.

(** [TestResponseWriter_Hijack_NotSupported], [_Push_NotSupported],
    [_Flush_NotSupported] and [_AllInterfaces_Supported]. *)
Lemma capability_delegation_witness :
  let rw := wrapResponseWriter newMockResponseWriter None None None in
  let full := wrapResponseWriter newMockFullWriter None None None in
  (∃ err, Hijack rw = (rw, mkHijack None None (Some err))
          ∧ errMsg err = "feature not supported" ∧ errorsIs err = true)
  ∧ Push "/style.css" None rw = (rw, Some ErrNotSupported)
  ∧ Flush rw = rw
  ∧ hijackCalled (impl (ResponseWriter (Hijack full).1)) = true
  ∧ pushTarget (impl (ResponseWriter (Push "/style.css" None full).1)) = "/style.css"
  ∧ (Push "/style.css" None full).2 = None.
Proof.
  intros rw full.
  destruct (capability_delegation rw "/style.css" None) as (Hh & _ & Hp & _ & Hf).
  destruct (capability_delegation full "/style.css" None) as (_ & Hh' & _ & Hp' & _).
  split; [apply Hh; reflexivity|]. split; [apply Hp; reflexivity|].
  split; [apply Hf; reflexivity|].
  split; [erewrite Hh' by reflexivity; reflexivity|].
  split; erewrite Hp' by reflexivity; reflexivity.
Defined.

Lemma derived_mux_handlers_witness :
  let hp := heapOf parentSetup in
  let child := (deriveMux doubling (muxAt hp 0) "" hp).1 in
  let hp1 := (deriveMux doubling (muxAt hp 0) "" hp).2 in
  mux_notFound (muxAt hp 0) = Some custom404
  ∧ (∃ sc, muxes hp1 !! child = Some (mkMux (router (muxAt hp 0)) sc "" None None))
  ∧ muxes hp1 !! 0 = Some (muxAt hp 0).
Proof.
  intros hp child hp1.
  destruct (derived_mux_handlers doubling hp 0 (muxAt hp 0) "") as (_ & _ & Hc & Hp & _).
  - vm_compute. reflexivity.
  - split; [reflexivity|]. split; [exact Hc|exact Hp].
Defined.

(** A request served through the parent gets the custom handler; the same
    request served through the derived child gets the matcher's reply. *)
Example derived_child_not_found :
  let hp := heapOf (DoNew (λ mux,
              DoWithNotFound mux (Some custom404) (DoGroup mux (λ _, Done) Done))) in
  let served m :=
    match ServeHTTP exactMatcher m newMockResponseWriter someRequest hp [] with
    | ok res => Some (String.string_of_list_byte (body (impl (ResponseWriter res.1))))
    | panic _ => None
    end in
  served 0 = Some "Custom 404"
  ∧ served 1 = Some ("404 page not found" +:+ String "010"%char EmptyString).
Proof. split; vm_compute; reflexivity. Qed.

(** * Further facts about the response writer *)

Section MoreWriterFacts.
Context {T : Type} `{Sink T}.
Implicit Types (rw : responseWriter T) (l : log) (p : prog).

Lemma suppressed_plain rw : plain rw → plain (suppressed rw).
Proof. done. Qed.

Lemma Write_ok b rw : writer_ok rw → writer_ok (Write b rw).1.
Proof.
  intros Hok. unfold Write. destruct (ignoreWrites rw) eqn:Hig; [done|].
  destruct (rawWrite b (ResponseWriter rw)) as [w' [n e]]. simpl.
  by split.
Qed.

Lemma commitOnce_ok st rw : writer_ok rw → writer_ok (commitOnce st rw).
Proof.
  intros Hok. unfold commitOnce. destruct (written rw) eqn:Hwr; [done|].
  split; [done|]. apply Hok.
Qed.

Lemma Hijack_ok rw : writer_ok rw → writer_ok (Hijack rw).1.
Proof. unfold Hijack. by destruct (rcHijack sinkType (ResponseWriter rw)). Qed.

Lemma Push_ok target opts rw : writer_ok rw → writer_ok (Push target opts rw).1.
Proof.
  unfold Push. destruct (asPusher sinkType) as [push|]; [|done].
  by destruct (push target opts _ _).
Qed.

Lemma execNormal_ok p : ∀ rw l, writer_ok rw → writer_ok (execNormal p rw l).1.
Proof.
  induction p as [|e k IH|f k IH|k IH|st k IH|b k IH|k IH|m r inner IHi k IHk
                  |k IH|k IH|target opts k IH]; intros rw l Hok; simpl.
  - done.
  - by apply IH.
  - by apply IH.
  - by apply IH.
  - apply IH. by apply commitOnce_ok.
  - pose proof (Write_ok b rw Hok). destruct (Write b rw) as [rw' r]. by apply IH.
  - by apply IH.
  - pose proof (IHi rw l Hok). destruct (execNormal inner rw l) as [rw' l']. by apply IHk.
  - by apply IH.
  - pose proof (Hijack_ok rw Hok). destruct (Hijack rw) as [rw' r]. by apply IH.
  - pose proof (Push_ok target opts rw Hok). destruct (Push target opts rw) as [rw' e]. by apply IH.
Qed.

Lemma WriteHeader_ok n st rw l rw' l' :
  writer_ok rw → WriteHeader (exec (S n)) st rw l = Some (rw', l') → writer_ok rw'.
Proof.
  intros Hok. unfold WriteHeader. destruct (written rw) eqn:Hw; [by intros [= <- <-]|].
  destruct (intercepting st rw) as [h|].
  - rewrite handleInterception_eq. intros [= <- <-].
    assert (Hc : writer_ok (cleared rw)) by (destruct Hok; by split).
    pose proof (execNormal_ok (h (req rw)) (cleared rw) l Hc) as [Hw' _].
    destruct (exec_plain (h (req rw)) 0 (cleared rw) l (cleared_plain rw)) as [_ Hp].
    split; [exact Hw'|]. intros _. exact Hp.
  - intros [= <- <-]. by split; [|apply Hok].
Qed.

Lemma Flush_ok rw : writer_ok rw → writer_ok (Flush rw).
Proof. done. Qed.

Lemma exec_ok p : ∀ n rw l rw' l',
  writer_ok rw → exec (S (S n)) p rw l = Some (rw', l') → writer_ok rw'.
Proof.
  induction p as [|e k IH|f k IH|k IH|st k IH|b k IH|k IH|m r inner IHi k IHk
                  |k IH|k IH|target opts k IH]; intros n rw l rw' l' Hok;
    rewrite exec_unfold.
  - by intros [= <- <-].
  - by apply IH.
  - by apply IH.
  - by apply IH.
  - destruct (WriteHeader (exec (S n)) st rw l) as [[rw1 l1]|] eqn:Hw; [|done].
    apply IH. by eapply WriteHeader_ok.
  - pose proof (Write_ok b rw Hok). destruct (Write b rw) as [rw1 r]. by apply IH.
  - by apply IH.
  - destruct (exec (S (S n)) inner rw l) as [[rw1 l1]|] eqn:Hin; [|done].
    apply IHk. by eapply IHi.
  - apply IH. by apply Flush_ok.
  - pose proof (Hijack_ok rw Hok). destruct (Hijack rw) as [rw1 r]. by apply IH.
  - pose proof (Push_ok target opts rw Hok). destruct (Push target opts rw) as [rw1 e]. by apply IH.
Qed.

(** X1. Whatever a request does to a writer made by [wrapResponseWriter],
    the run returns, and in the writer it leaves: while nothing is committed
    the recorded status is 0 and the size is 0, so [Status()] is 200 and
    [Size()] is 0 whenever [Written()] is false; and once writes are
    suppressed both handlers are nil. *)
Theorem writer_invariant (p : prog) (n : nat) (w : rawWriter T) (r : option Request)
    (nf mna : option Handler) l :
  ∃ rw' l',
    exec (S (S n)) p (wrapResponseWriter w r nf mna) l = Some (rw', l')
    ∧ (Written rw' = false → status rw' = 0%Z ∧ Status rw' = StatusOK ∧ Size rw' = 0%Z)
    ∧ (ignoreWrites rw' = true → notFound rw' = None ∧ methodNotAllowed rw' = None).
Proof.
  destruct (exec_enough p n (wrapResponseWriter w r nf mna) l) as [Hfuel [[rw' l'] Hrun]].
  exists rw', l'. rewrite Hfuel. split; [done|].
  assert (Hok : writer_ok rw').
  { eapply (exec_ok p 0); [|exact Hrun]. by split. }
  destruct Hok as [Hw Hi]. split; [|exact Hi].
  intros Hnw. destruct (Hw Hnw) as [Hs Hz]. unfold Status, Size. by rewrite Hs, Hz.
Qed.

(** X2. Once a body write has gone through, a header commit changes
    nothing, whatever the status and whatever handlers are registered: a
    404 after the first write is neither forwarded nor intercepted. *)
Theorem commit_after_write_ignored
    (serve : prog → responseWriter T → log → option (responseWriter T * log))
    (b : list Byte.byte) (st : Z) rw l :
  ignoreWrites rw = false →
  WriteHeader serve st (Write b rw).1 l = Some ((Write b rw).1, l)
  ∧ (written rw = false → Status (Write b rw).1 = StatusOK).
Proof.
  intros Hi. rewrite Write_eq by done. simpl. split; [done|]. by intros ->.
Qed.

(** X3. A header commit is intercepted for no other status than the one a
    handler is registered for: 404 with only a method-not-allowed handler,
    405 with only a not-found handler, and every other status with any
    handlers are recorded and forwarded to the sink. *)
Theorem commit_not_intercepted
    (serve : prog → responseWriter T → log → option (responseWriter T * log))
    (st : Z) rw l :
  written rw = false →
  (st = StatusNotFound → notFound rw = None) →
  (st = StatusMethodNotAllowed → methodNotAllowed rw = None) →
  WriteHeader serve st rw l = Some (commit st rw, l)
  ∧ status (commit st rw) = st
  ∧ ResponseWriter (commit st rw) = rawWriteHeader st (ResponseWriter rw)
  ∧ notFound (commit st rw) = notFound rw
  ∧ methodNotAllowed (commit st rw) = methodNotAllowed rw.
Proof.
  intros Hw Hnf Hmna. split_and!; try done.
  unfold WriteHeader. rewrite Hw.
  assert (intercepting st rw = None) as ->; [|done].
  unfold intercepting. destruct (status rw =? 0)%Z; [|done].
  destruct (Z.eqb_spec st StatusNotFound) as [->|Hne].
  - rewrite Hnf by done. simpl. done.
  - destruct (Z.eqb_spec st StatusMethodNotAllowed) as [->|Hne2]; [|done].
    by rewrite Hmna.
Qed.

(** X4. After an interception the rest of the request runs on the normal
    commit path: both handlers stay nil, no later commit is intercepted, a
    later header commit still reaches the sink when the substitute handler
    committed none, and every program run afterwards returns. *)
Theorem after_interception_normal_path (n : nat) (st : Z) rw l (h : Handler) :
  written rw = false → status rw = 0%Z → registered st rw h →
  ∃ rw1 l1,
    WriteHeader (exec (S n)) st rw l = Some (rw1, l1)
    ∧ notFound rw1 = None ∧ methodNotAllowed rw1 = None
    ∧ (∀ m p, exec (S m) p rw1 l1 = Some (execNormal p rw1 l1)
              ∧ plain (execNormal p rw1 l1).1)
    ∧ (∀ serve st', written rw1 = false →
         WriteHeader serve st' rw1 l1 = Some (commit st' rw1, l1)
         ∧ ResponseWriter (commit st' rw1) = rawWriteHeader st' (ResponseWriter rw1)).
Proof.
  intros Hw Hst Hreg.
  destruct (exec_plain (h (req rw)) 0 (cleared rw) l (cleared_plain rw)) as [_ Hp].
  eexists _, _. split; [by apply WriteHeader_intercepted|].
  pose proof (suppressed_plain _ Hp) as Hps. split_and!.
  - apply Hps.
  - apply Hps.
  - intros m p. by apply exec_plain.
  - intros serve st' Hw1. split; [|done].
    rewrite WriteHeader_plain by done. unfold commitOnce. by rewrite Hw1.
Qed.

(** X5. The not-found reply of net/http ([http.Error]: three header
    changes, the header commit, the body) run against a writer with a
    handler registered for its status leaves the writer exactly as the
    substitute handler leaves it when run alone on the sink with no headers:
    nothing of the reply's headers, status or body arrives. *)
Theorem default_reply_replaced (n : nat) (msg : string) (code : Z) rw l (h : Handler) :
  written rw = false → status rw = 0%Z → registered code rw h →
  exec (S (S n)) (httpError msg code) rw l
  = Some (suppressed (execNormal (h (req rw)) (cleared rw) l).1,
          (execNormal (h (req rw)) (cleared rw) l).2).
Proof.
  intros Hw Hst Hreg. unfold httpError. rewrite !exec_unfold.
  set (rw' := setUnderlying _ _).
  assert (Hreg' : registered code rw' h) by (destruct Hreg as [[-> ?]|[-> ?]]; [by left|by right]).
  rewrite (WriteHeader_intercepted n code rw' l h Hw Hst Hreg').
  change (cleared rw') with (cleared rw). change (req rw') with (req rw).
  rewrite exec_unfold, Write_ignored by done. by rewrite exec_unfold.
Qed.

Lemma wrap_int_add (x y : Z) : wrap_int (wrap_int x + y) = wrap_int (x + y).
Proof.
  unfold wrap_int. f_equal.
  replace ((x + 2 ^ 63) `mod` 2 ^ 64 - 2 ^ 63 + y + 2 ^ 63)%Z
    with ((x + 2 ^ 63) `mod` 2 ^ 64 + y)%Z by lia.
  rewrite Zplus_mod_idemp_l. f_equal. lia.
Qed.

Lemma wrap_int_range (z : Z) : (int_min ≤ wrap_int z ≤ int_max)%Z.
Proof.
  unfold wrap_int, int_min, int_max.
  pose proof (Z.mod_pos_bound (z + 2 ^ 63) (2 ^ 64) ltac:(lia)). lia.
Qed.

Lemma writeAll_spec (bs : list (list Byte.byte)) : ∀ rw,
  ignoreWrites rw = false → (int_min ≤ size rw ≤ int_max)%Z →
  size (writeAll bs rw).1 = wrap_int (size rw + foldr Z.add 0%Z (writeAll bs rw).2.*1)
  ∧ ignoreWrites (writeAll bs rw).1 = false
  ∧ written (writeAll bs rw).1 = match bs with [] => written rw | _ => true end
  ∧ status (writeAll bs rw).1
    = (if written rw then status rw else match bs with [] => status rw | _ => StatusOK end).
Proof.
  induction bs as [|b bs IH]; intros rw Hi Hr.
  - simpl. rewrite Z.add_0_r, wrap_int_small by done. split_and!; try done. by destruct (written rw).
  - cbn [writeAll]. rewrite (Write_eq b rw Hi).
    set (rw1 := mkResponseWriter _ _ _ _ _ _ _ _).
    destruct (IH rw1 eq_refl (wrap_int_range _)) as (Hs & Hi' & Hw & Hst).
    destruct (writeAll bs rw1) as [rw2 rs]. 
    cbn [fst snd] in *. rewrite fmap_cons. cbn [foldr fst].
    split_and!.
    + rewrite Hs. unfold rw1 at 1. cbn [size]. rewrite wrap_int_add. f_equal. lia.
    + exact Hi'.
    + rewrite Hw. by destruct bs.
    + rewrite Hst. unfold rw1. cbn [written status]. by destruct (written rw), bs.
Qed.

Lemma writeAll_raw (bs : list (list Byte.byte)) : ∀ rw,
  ignoreWrites rw = false →
  ResponseWriter (writeAll bs rw).1 = (rawWriteAll bs (ResponseWriter rw)).1
  ∧ (writeAll bs rw).2 = (rawWriteAll bs (ResponseWriter rw)).2.
Proof.
  induction bs as [|b bs IH]; intros rw Hi; [done|].
  cbn [writeAll rawWriteAll]. unfold Write. rewrite Hi.
  destruct (rawWrite b (ResponseWriter rw)) as [w1 [n e]].
  set (rw1 := mkResponseWriter _ _ _ _ _ _ _ _).
  destruct (IH rw1 eq_refl) as [Hw Hr]. change (ResponseWriter rw1) with w1 in Hw, Hr.
  destruct (writeAll bs rw1) as [rw2 rs], (rawWriteAll bs w1) as [w2 rs'].
  cbn [fst snd] in *. by subst.
Qed.

(** X6. A handler that writes any number of payloads through a writer that
    is not suppressing writes: the sink receives the same payloads with the
    same results as if it were written to directly, the handler sees the
    sink's own counts and errors, the size is the old size plus the counts
    the sink reports (in Go's [int] arithmetic), the writer is written after
    the first payload, and a status committed before stays. *)
Theorem writes_accounted (bs : list (list Byte.byte)) rw :
  ignoreWrites rw = false → (int_min ≤ size rw ≤ int_max)%Z →
  ResponseWriter (writeAll bs rw).1 = (rawWriteAll bs (ResponseWriter rw)).1
  ∧ (writeAll bs rw).2 = (rawWriteAll bs (ResponseWriter rw)).2
  ∧ Size (writeAll bs rw).1
    = wrap_int (Size rw + foldr Z.add 0%Z (rawWriteAll bs (ResponseWriter rw)).2.*1)
  ∧ (bs ≠ [] → Written (writeAll bs rw).1 = true)
  ∧ (written rw = true → Status (writeAll bs rw).1 = Status rw)
  ∧ (written rw = false → bs ≠ [] → Status (writeAll bs rw).1 = StatusOK).
Proof.
  intros Hi Hr. destruct (writeAll_raw bs rw Hi) as [Hw Hres].
  destruct (writeAll_spec bs rw Hi Hr) as (Hs & _ & Hwr & Hst).
  split_and!.
  - exact Hw.
  - exact Hres.
  - unfold Size. by rewrite Hs, Hres.
  - intros Hne. unfold Written. rewrite Hwr. by destruct bs.
  - intros Hw1. unfold Status. rewrite Hst. by rewrite Hw1.
  - intros Hw0 Hne. unfold Status. rewrite Hst, Hw0. by destruct bs.
Qed.

(** X7. [Hijack] and [Flush] look for the capability along the sink's
    [Unwrap] chain, [Push] looks at the sink itself only: on a sink that is
    neither hijacker, flusher nor pusher but unwraps to a writer that is all
    three, [Hijack] and [Flush] reach that writer and [Push] returns
    [http.ErrNotSupported]. *)
Theorem unwrap_reached_by_hijack_not_push rw (t' : rwtype T)
    (hijack : header → T → T * hijackResult) (flush : header → T → T)
    (target : string) (opts : option PushOptions) :
  asHijacker sinkType = None → asFlushErrorer sinkType = None →
  asFlusher sinkType = None → asPusher sinkType = None →
  asUnwrapper sinkType = Some t' →
  asHijacker t' = Some hijack → asFlushErrorer t' = None → asFlusher t' = Some flush →
  let w := ResponseWriter rw in
  Hijack rw = (setUnderlying (mkRaw (Header w) (hijack (Header w) (impl w)).1) rw,
               (hijack (Header w) (impl w)).2)
  ∧ Flush rw = setUnderlying (mkRaw (Header w) (flush (Header w) (impl w))) rw
  ∧ Push target opts rw = (rw, Some ErrNotSupported).
Proof.
  intros Hh Hfe Hfl Hp Hu Hh' Hfe' Hfl'. simpl. unfold Hijack, Flush, Push.
  destruct sinkType as [fe fl hj pu un]. simpl in *. subst.
  destruct t' as [fe' fl' hj' pu' un']. simpl in *. subst.
  split_and!; try done. by destruct (hijack _ _).
Qed.

(** X8. [Flush] on a sink that can flush: a sink with [FlushError] is
    flushed through it and the error is dropped, otherwise a flusher is
    flushed through [Flush]; either way the writer's status, size, written
    flag, handlers and suppression stay as they were, so flushing alone never
    marks the writer written. *)
Theorem flush_delegates rw :
  let w := ResponseWriter rw in
  (∀ flushError, asFlushErrorer sinkType = Some flushError →
     Flush rw = setUnderlying (mkRaw (Header w) (flushError (Header w) (impl w)).1) rw)
  ∧ (∀ flush, asFlushErrorer sinkType = None → asFlusher sinkType = Some flush →
       Flush rw = setUnderlying (mkRaw (Header w) (flush (Header w) (impl w))) rw)
  ∧ status (Flush rw) = status rw ∧ size (Flush rw) = size rw
  ∧ written (Flush rw) = written rw ∧ ignoreWrites (Flush rw) = ignoreWrites rw
  ∧ notFound (Flush rw) = notFound rw ∧ methodNotAllowed (Flush rw) = methodNotAllowed rw.
Proof.
  simpl. split_and!; try done.
  - intros fe Hfe. unfold Flush. destruct sinkType as [fe0 fl hj pu un]. simpl in *. subst.
    by destruct (fe _ _).
  - intros fl Hfe Hfl. unfold Flush. destruct sinkType as [fe0 fl0 hj pu un]. simpl in *. by subst.
Qed.

(** X9. A handler registered through a Mux and called directly with a sink
    that is not a [chain.ResponseWriter] behaves as when it is served through
    that Mux: the closure built by [wrap] wraps the sink with the handlers
    the Mux has at the time of the call, the run returns, and the sink and
    the log end as they do under the wrapper [ServeHTTP] would make; inside,
    the handler finds a [chain.ResponseWriter]. *)
Theorem direct_call_like_served (hp : heap) (m : nat) (M : Mux) (r : option Request)
    (inner : prog) (w : rawWriter T) l :
  muxes hp !! m = Some M →
  ∃ rw' l',
    exec 2 (Rewrap m r inner Return) (wrapWriter M w r) l = Some (rw', l')
    ∧ execRaw hp (Rewrap m r inner Return) w l = Some (ResponseWriter rw', l')
    ∧ ∀ k, execRaw hp (Rewrap m r (AsResponseWriter k) Return) w l
           = execRaw hp (Rewrap m r (k (Some (StatusOK, 0%Z, false))) Return) w l.
Proof.
  intros HM. unfold wrapWriter.
  destruct (exec_enough inner 0
              (wrapResponseWriter w r (mux_notFound M) (mux_methodNotAllowed M)) l)
    as [_ [[rw' l'] Hrun]].
  exists rw', l'. split_and!.
  - rewrite exec_unfold, Hrun. by rewrite exec_unfold.
  - simpl. by rewrite HM, Hrun.
  - intros k. simpl. rewrite HM. by rewrite exec_unfold.
Qed.
End MoreWriterFacts.

Lemma commit_after_write_ignored_witness :
  let rw := wrapResponseWriter newMockResponseWriter someRequest (Some custom404) None in
  let b := String.list_byte_of_string "partial body" in
  WriteHeader (exec 1) StatusNotFound (Write b rw).1 [] = Some ((Write b rw).1, [])
  ∧ Status (Write b rw).1 = StatusOK.
Proof.
  intros rw b.
  destruct (commit_after_write_ignored (exec 1) b StatusNotFound rw []) as [Hw Hs].
  - reflexivity.
  - split; [exact Hw|]. apply Hs. reflexivity.
Defined.

Lemma commit_not_intercepted_witness :
  let rw := wrapResponseWriter newMockResponseWriter someRequest None (Some custom404) in
  WriteHeader (exec 1) StatusNotFound rw [] = Some (commit StatusNotFound rw, [])
  ∧ statusCode (impl (ResponseWriter (commit StatusNotFound rw))) = StatusNotFound.
Proof.
  intros rw.
  destruct (commit_not_intercepted (exec 1) StatusNotFound rw []) as (Hw & _ & Hs & _).
  - reflexivity.
  - reflexivity.
  - discriminate.
  - split; [exact Hw|]. rewrite Hs. reflexivity.
Defined.

Lemma after_interception_normal_path_witness :
  let rw := wrapResponseWriter mockWithHeaders someRequest (Some silentHandler) None in
  ∃ rw1 l1,
    WriteHeader (exec 1) StatusNotFound rw [] = Some (rw1, l1)
    ∧ notFound rw1 = None ∧ methodNotAllowed rw1 = None
    ∧ (∀ m p, exec (S m) p rw1 l1 = Some (execNormal p rw1 l1)
              ∧ plain (execNormal p rw1 l1).1)
    ∧ (∀ serve st', written rw1 = false →
         WriteHeader serve st' rw1 l1 = Some (commit st' rw1, l1)
         ∧ ResponseWriter (commit st' rw1) = rawWriteHeader st' (ResponseWriter rw1)).
Proof.
  intros rw.
  apply (after_interception_normal_path 0 StatusNotFound rw [] silentHandler).
  - reflexivity.
  - reflexivity.
  - left. split; reflexivity.
Defined.

Lemma default_reply_replaced_witness :
  let rw := wrapResponseWriter newMockResponseWriter someRequest (Some custom404) None in
  (λ res, (body (impl (ResponseWriter res.1)), Header (ResponseWriter res.1), Status res.1))
    <$> exec 2 (httpError "404 page not found" StatusNotFound) rw []
  = Some (String.list_byte_of_string "Custom 404", ∅, StatusNotFound).
Proof.
  intros rw.
  rewrite (default_reply_replaced 0 "404 page not found" StatusNotFound rw [] custom404).
  - vm_compute. reflexivity.
  - reflexivity.
  - reflexivity.
  - left. split; reflexivity.
Defined.

Lemma writes_accounted_witness :
  let rw := wrapResponseWriter newMockResponseWriter None None None in
  let bs := [String.list_byte_of_string "Hello, "; []; String.list_byte_of_string "World!"] in
  Size (writeAll bs rw).1 = 13%Z
  ∧ body (impl (ResponseWriter (writeAll bs rw).1)) = String.list_byte_of_string "Hello, World!"
  ∧ (writeAll bs rw).2 = [(7%Z, None); (0%Z, None); (6%Z, None)]
  ∧ Written (writeAll bs rw).1 = true.
Proof.
  intros rw bs.
  destruct (writes_accounted bs rw) as (Hw & Hr & Hs & Hwr & _).
  - reflexivity.
  - split; vm_compute; discriminate.
  - rewrite Hs, Hw, Hr. split_and!; reflexivity.
Defined.

Lemma direct_call_like_served_witness :
  let hp := heapOf parentSetup in
  ∃ rw' l',
    exec 2 (Rewrap 0 someRequest (httpError "404 page not found" StatusNotFound) Return)
      (wrapWriter (muxAt hp 0) newMockResponseWriter someRequest) [] = Some (rw', l')
    ∧ execRaw hp (Rewrap 0 someRequest (httpError "404 page not found" StatusNotFound) Return)
        newMockResponseWriter [] = Some (ResponseWriter rw', l')
    ∧ ∀ k, execRaw hp (Rewrap 0 someRequest (AsResponseWriter k) Return) newMockResponseWriter []
           = execRaw hp (Rewrap 0 someRequest (k (Some (StatusOK, 0%Z, false))) Return)
               newMockResponseWriter [].
Proof.
  intros hp.
  apply (direct_call_like_served hp 0 (muxAt hp 0) someRequest
           (httpError "404 page not found" StatusNotFound) newMockResponseWriter []).
  vm_compute. reflexivity.
Defined.

Lemma unwrap_reached_by_hijack_not_push_witness :
  let rw := wrapResponseWriter newUnwrappingWriter None None None in
  hijackCalled (unwrapped (impl (ResponseWriter (Hijack rw).1))) = true
  ∧ flushCalled (unwrapped (impl (ResponseWriter (Flush rw)))) = true
  ∧ Push "/style.css" None rw = (rw, Some ErrNotSupported).
Proof.
  intros rw.
  destruct (unwrap_reached_by_hijack_not_push rw unwrappedType unwrappedHijack unwrappedFlush
              "/style.css" None) as (Hh & Hf & Hp); try reflexivity.
  rewrite Hh, Hf. split_and!; [reflexivity|reflexivity|exact Hp].
Defined.

(** [TestResponseWriter_Flush_Supported]. *)
Lemma flush_delegates_witness :
  let rw := wrapResponseWriter newMockFullWriter None None None in
  flushCalled (impl (ResponseWriter (Flush rw))) = true ∧ Written (Flush rw) = false.
Proof.
  intros rw.
  destruct (flush_delegates rw) as (_ & Hfl & _ & _ & Hw & _).
  split; [|exact Hw].
  erewrite Hfl by reflexivity. reflexivity.
Defined.

(** * Further facts about setup code *)

Section SetupFacts.
Variable slack : nat → nat → nat.
Variable registerErr : list (string * Handler) → string → option string.
Implicit Types (hp : heap).

#[local] Instance keeps_refl : Reflexive keeps.
Proof. intros hp. split; intros; eauto. Qed.

#[local] Instance keeps_trans : Transitive keeps.
Proof.
  intros h1 h2 h3 [Hm1 Hr1] [Hm2 Hr2]. split.
  - intros m M HM. destruct (Hm1 m M HM) as (M' & HM' & Hr & Hp).
    destruct (Hm2 m M' HM') as (M'' & HM'' & Hr' & Hp'). exists M''. split_and!; congruence.
  - intros r t Ht. destruct (Hr1 r t Ht) as (t' & Ht' & Hpre).
    destruct (Hr2 r t' Ht') as (t'' & Ht'' & Hpre'). exists t''. split; [done|]. by etrans.
Qed.

(** Induction over setup code: what every exported function keeps, setup
    code keeps. *)
Lemma run_preserves (I : heap → Prop) (R : heap → heap → Prop)
    `{!Reflexive R} `{!Transitive R} :
  (∀ hp, I hp → I (New hp).2 ∧ R hp (New hp).2) →
  (∀ hp m mw hp', I hp → Use slack m mw hp = ok hp' → I hp' ∧ R hp hp') →
  (∀ hp m M pfx, I hp → muxes hp !! m = Some M →
     I (deriveMux slack M pfx hp).2 ∧ R hp (deriveMux slack M pfx hp).2) →
  (∀ hp m pattern h hp', I hp →
     Handle registerErr m pattern h hp = ok hp' ∨ HandleFunc registerErr m pattern h hp = ok hp' →
     I hp' ∧ R hp hp') →
  (∀ hp m h hp', I hp →
     WithNotFound m h hp = ok hp' ∨ WithMethodNotAllowed m h hp = ok hp' → I hp' ∧ R hp hp') →
  ∀ s hp hp', I hp → run slack registerErr s hp = ok hp' → I hp' ∧ R hp hp'.
Proof.
  intros HNew HUse Hder HHandle HWith.
  induction s as [|k IH|m mw k IH|m fn IHfn k IH|m k IH|m pfx fn IHfn k IH|m pfx k IH
                  |m pattern h k IH|m pattern h k IH|m h k IH|m h k IH];
    intros hp hp' Hok; simpl.
  - by intros [= <-].
  - change (run slack registerErr (k (New hp).1) (New hp).2 = ok hp' → I hp' ∧ R hp hp').
    intros Hrun. destruct (HNew hp Hok) as [HI HR].
    destruct (IH _ _ hp' HI Hrun) as [HI' HR']. split; [done|]. by etrans.
  - intros (hp1 & HU & Hrun)%bind_ok. destruct (HUse hp m mw hp1 Hok HU) as [HI HR].
    destruct (IH hp1 hp' HI Hrun) as [HI' HR']. split; [done|]. by etrans.
  - intros (hp2 & HG & Hrun)%bind_ok. unfold Group, getMux in HG.
    destruct (muxes hp !! m) as [M|] eqn:HM; [|done]. simpl in HG.
    destruct (Hder hp m M (prefix M) Hok HM) as [HI HR].
    destruct (deriveMux slack M (prefix M) hp) as [child hp1]. simpl in *.
    destruct (IHfn child hp1 hp2 HI HG) as [HI2 HR2].
    destruct (IH hp2 hp' HI2 Hrun) as [HI' HR']. split; [done|]. etrans; [|done]. by etrans.
  - done.
  - intros (hp2 & HG & Hrun)%bind_ok. unfold Route, getMux in HG.
    destruct (muxes hp !! m) as [M|] eqn:HM; [|done]. simpl in HG.
    destruct (Hder hp m M (prefix M +:+ pfx) Hok HM) as [HI HR].
    destruct (deriveMux slack M (prefix M +:+ pfx) hp) as [child hp1]. simpl in *.
    destruct (IHfn child hp1 hp2 HI HG) as [HI2 HR2].
    destruct (IH hp2 hp' HI2 Hrun) as [HI' HR']. split; [done|]. etrans; [|done]. by etrans.
  - done.
  - intros (hp1 & HH & Hrun)%bind_ok.
    destruct (HHandle hp m pattern h hp1 Hok (or_introl HH)) as [HI HR].
    destruct (IH hp1 hp' HI Hrun) as [HI' HR']. split; [done|]. by etrans.
  - intros (hp1 & HH & Hrun)%bind_ok.
    destruct (HHandle hp m pattern h hp1 Hok (or_intror HH)) as [HI HR].
    destruct (IH hp1 hp' HI Hrun) as [HI' HR']. split; [done|]. by etrans.
  - intros (hp1 & HH & Hrun)%bind_ok.
    destruct (HWith hp m h hp1 Hok (or_introl HH)) as [HI HR].
    destruct (IH hp1 hp' HI Hrun) as [HI' HR']. split; [done|]. by etrans.
  - intros (hp1 & HH & Hrun)%bind_ok.
    destruct (HWith hp m h hp1 Hok (or_intror HH)) as [HI HR].
    destruct (IH hp1 hp' HI Hrun) as [HI' HR']. split; [done|]. by etrans.
Qed.

Lemma New_keeps hp : (heap_routed hp → heap_routed (New hp).2) ∧ keeps hp (New hp).2.
Proof.
  unfold New. simpl.
  assert (Hm : muxes hp !! fresh (dom (muxes hp)) = None) by apply not_elem_of_dom, is_fresh.
  assert (Hrt : routers hp !! fresh (dom (routers hp)) = None) by apply not_elem_of_dom, is_fresh.
  split; [|split].
  - intros Hr m M. simpl. destruct (decide (m = fresh (dom (muxes hp)))) as [->|Hne].
    + rewrite lookup_insert_eq. intros [= <-]. simpl. by rewrite lookup_insert_eq.
    + rewrite lookup_insert_ne by done. intros HM. destruct (Hr m M HM) as [t Ht].
      exists t. rewrite lookup_insert_ne; [done|]. intros Heq. congruence.
  - intros m M HM. simpl. exists M. rewrite lookup_insert_ne; [done|]. intros <-. congruence.
  - intros r t Ht. simpl. exists t. rewrite lookup_insert_ne; [done|]. intros <-. congruence.
Qed.

Lemma setMux_keeps hp m M M' :
  muxes hp !! m = Some M → router M' = router M → prefix M' = prefix M →
  ∀ arrs, (heap_routed hp → heap_routed (setMux m M' (setArrays arrs hp)))
          ∧ keeps hp (setMux m M' (setArrays arrs hp)).
Proof.
  intros HM Hro Hpf arrs. split; [|split].
  - intros Hr m0 M0. simpl. destruct (decide (m0 = m)) as [->|Hne].
    + rewrite lookup_insert_eq. intros [= <-]. rewrite Hro. by eapply Hr.
    + rewrite lookup_insert_ne by done. apply Hr.
  - intros m0 M0 HM0. simpl. destruct (decide (m0 = m)) as [->|Hne].
    + rewrite lookup_insert_eq. exists M'. split; [done|]. split; congruence.
    + rewrite lookup_insert_ne by done. by exists M0.
  - intros r t Ht. by exists t.
Qed.

Lemma Use_keeps hp m mw hp' :
  Use slack m mw hp = ok hp' → (heap_routed hp → heap_routed hp') ∧ keeps hp hp'.
Proof.
  unfold Use. destruct (nonNil mw) as [fns|]; [|done].
  unfold getMux. destruct (muxes hp !! m) as [M|] eqn:HM; [|done]. simpl.
  destruct (append slack (middlewares M) fns (arrays hp)) as [s' arrs']. intros [= <-].
  by apply (setMux_keeps hp m M).
Qed.

Lemma deriveMux_keeps hp m M pfx :
  muxes hp !! m = Some M →
  (heap_routed hp → heap_routed (deriveMux slack M pfx hp).2)
  ∧ keeps hp (deriveMux slack M pfx hp).2.
Proof.
  intros HM. unfold deriveMux.
  destruct (append slack nilSlice (elems (arrays hp) (middlewares M)) (arrays hp)) as [sc arrs'].
  simpl.
  assert (Hm : muxes hp !! fresh (dom (muxes hp)) = None) by apply not_elem_of_dom, is_fresh.
  split; [|split].
  - intros Hr m0 M0. simpl. destruct (decide (m0 = fresh (dom (muxes hp)))) as [->|Hne].
    + rewrite lookup_insert_eq. intros [= <-]. simpl. by eapply Hr.
    + rewrite lookup_insert_ne by done. apply Hr.
  - intros m0 M0 HM0. simpl. exists M0. rewrite lookup_insert_ne; [done|]. intros <-. congruence.
  - intros r t Ht. by exists t.
Qed.

Lemma Handle_keeps hp m pattern h hp' :
  Handle registerErr m pattern h hp = ok hp' ∨ HandleFunc registerErr m pattern h hp = ok hp' →
  (heap_routed hp → heap_routed hp') ∧ keeps hp hp'.
Proof.
  intros Hh.
  assert (∃ r table e, routers hp !! r = Some table
            ∧ hp' = mkHeap (muxes hp) (arrays hp) (<[r := table ++ [e]]> (routers hp)))
    as (r & table & e & Ht & ->).
  { destruct Hh as [Hh|Hh]; unfold Handle, HandleFunc, getMux in Hh;
      (destruct h as [h|]; [|done]);
      (destruct (muxes hp !! m) as [M|]; [|done]); simpl in Hh;
      (destruct (wrap m M h hp) as [w|]; [|done]); simpl in Hh;
      unfold routerHandle in Hh;
      (destruct (routers hp !! router M) as [table|] eqn:Ht; [|done]);
      (destruct (registerErr table (prefixPattern M pattern)); [done|]);
      injection Hh as <-; by eexists _, _, _. }
  split; [|split].
  - intros Hr m0 M0 HM0. simpl in *. destruct (Hr m0 M0 HM0) as [t0 Ht0].
    destruct (decide (router M0 = r)) as [->|Hne].
    + rewrite lookup_insert_eq. by eexists.
    + rewrite lookup_insert_ne by done. by eexists.
  - intros m0 M0 HM0. by exists M0.
  - intros r0 t0 Ht0. simpl. destruct (decide (r0 = r)) as [->|Hne].
    + rewrite lookup_insert_eq. exists (table ++ [e]). split; [done|].
      assert (t0 = table) as -> by congruence. by apply prefix_app_r.
    + rewrite lookup_insert_ne by done. by exists t0.
Qed.

Lemma With_keeps hp m h hp' :
  WithNotFound m h hp = ok hp' ∨ WithMethodNotAllowed m h hp = ok hp' →
  (heap_routed hp → heap_routed hp') ∧ keeps hp hp'.
Proof.
  intros Hh.
  destruct Hh as [Hh|Hh]; unfold WithNotFound, WithMethodNotAllowed, getMux in Hh;
    (destruct (muxes hp !! m) as [M|] eqn:HM; [|done]); simpl in Hh; injection Hh as <-.
  - pose proof (setMux_keeps hp m M
      (mkMux (router M) (middlewares M) (prefix M) h (mux_methodNotAllowed M))
      HM eq_refl eq_refl (arrays hp)) as Hk.
    by destruct hp.
  - pose proof (setMux_keeps hp m M
      (mkMux (router M) (middlewares M) (prefix M) (mux_notFound M) h)
      HM eq_refl eq_refl (arrays hp)) as Hk.
    by destruct hp.
Qed.

Lemma run_keeps (s : script) hp hp' : run slack registerErr s hp = ok hp' → keeps hp hp'.
Proof.
  intros Hrun.
  refine (proj2 (run_preserves (λ _, True) keeps _ _ _ _ _ s hp hp' I Hrun)).
  - intros h _. split; [done|]. apply New_keeps.
  - intros h m mw h' _ HU. split; [done|]. exact (proj2 (Use_keeps h m mw h' HU)).
  - intros h m M pfx _ HM. split; [done|]. exact (proj2 (deriveMux_keeps h m M pfx HM)).
  - intros h m pattern hd h' _ HH. split; [done|]. exact (proj2 (Handle_keeps h m pattern hd h' HH)).
  - intros h m hd h' _ HH. split; [done|]. exact (proj2 (With_keeps h m hd h' HH)).
Qed.

Lemma run_routed (s : script) hp hp' :
  heap_routed hp → run slack registerErr s hp = ok hp' → heap_routed hp'.
Proof.
  intros Hr Hrun.
  assert (Reflexive (λ _ _ : heap, True)) by done.
  assert (Transitive (λ _ _ : heap, True)) by done.
  refine (proj1 (run_preserves heap_routed (λ _ _, True) _ _ _ _ _ s hp hp' Hr Hrun)).
  - intros h Hh. split; [|done]. by apply New_keeps.
  - intros h m mw h' Hh HU. split; [|done]. exact (proj1 (Use_keeps h m mw h' HU) Hh).
  - intros h m M pfx Hh HM. split; [|done]. exact (proj1 (deriveMux_keeps h m M pfx HM) Hh).
  - intros h m pattern hd h' Hh HH. split; [|done]. exact (proj1 (Handle_keeps h m pattern hd h' HH) Hh).
  - intros h m hd h' Hh HH. split; [|done]. exact (proj1 (With_keeps h m hd h' HH) Hh).
Qed.

Lemma emptyHeap_routed : heap_routed emptyHeap.
Proof. intros m M. simpl. by rewrite lookup_empty. Qed.
Lemma nonNil_None (mw : list (option Middleware)) : nonNil mw = None ↔ None ∈ mw.
Proof.
  induction mw as [|[fn|] mw IH]; simpl.
  - split; [done|]. by intros ?%elem_of_nil.
  - destruct (nonNil mw) as [fns|]; simpl.
    + split; [done|]. intros [?|Hin]%elem_of_cons; [done|]. by apply IH in Hin.
    + split; [|done]. intros _. right. by apply IH.
  - split; [|done]. intros _. left.
Qed.

Lemma nonNil_app (xs ys : list (option Middleware)) :
  nonNil (xs ++ ys) = fx ← nonNil xs; fy ← nonNil ys; Some (fx ++ fy).
Proof.
  induction xs as [|[fn|] xs IH]; simpl.
  - by destruct (nonNil ys).
  - rewrite IH. destruct (nonNil xs) as [fx|]; simpl; [|done]. by destruct (nonNil ys).
  - done.
Qed.

Lemma Use_ok hp m M mw fns :
  nonNil mw = Some fns → muxes hp !! m = Some M → ∃ hp', Use slack m mw hp = ok hp'.
Proof.
  intros Hn HM. unfold Use, getMux. rewrite Hn, HM. simpl.
  destruct (append slack (middlewares M) fns (arrays hp)). by eexists.
Qed.

(** X10. [Use] panics with its own message exactly when one of its
    arguments is nil, wherever in the list it is and whatever the Mux, also
    one that does not exist: the arguments are checked before the Mux is
    touched. With no nil argument it succeeds on every Mux that exists. *)
Theorem Use_nil_arguments (m : nat) (mw : list (option Middleware)) hp :
  (Use slack m mw hp = panic "chain: nil middleware passed to Use" ↔ None ∈ mw)
  ∧ (None ∉ mw → is_Some (muxes hp !! m) → ∃ hp', Use slack m mw hp = ok hp').
Proof.
  split.
  - rewrite <- nonNil_None. unfold Use. destruct (nonNil mw) as [fns|]; [|done].
    split; [|done]. unfold getMux. destruct (muxes hp !! m) as [M|]; simpl; [|done].
    by destruct (append slack (middlewares M) fns (arrays hp)).
  - intros Hnil [M HM]. destruct (nonNil mw) as [fns|] eqn:Hn.
    + by eapply Use_ok.
    + by apply nonNil_None in Hn.
Qed.

(** X11. One call of [Use] with several middleware and several calls with
    the same middleware in the same order leave the same chains: [Use] with
    the arguments [xs ++ ys] succeeds exactly as [Use] with [xs] followed by
    [Use] with [ys] does, and every Mux ends with the same chain. *)
Theorem Use_additive (m : nat) (xs ys : list (option Middleware)) hp hpA :
  heap_ok hp → Use slack m (xs ++ ys) hp = ok hpA →
  ∃ hp1 hpB,
    Use slack m xs hp = ok hp1 ∧ Use slack m ys hp1 = ok hpB
    ∧ ∀ m', chain hpA m' = chain hpB m'.
Proof.
  intros Hok HA.
  destruct (Use_spec slack hp m (xs ++ ys) hpA Hok HA) as (fns & Hn & _ & HmA & HoA).
  rewrite nonNil_app in Hn.
  destruct (nonNil xs) as [fx|] eqn:Hx; [|done]. simpl in Hn.
  destruct (nonNil ys) as [fy|] eqn:Hy; [|done]. simpl in Hn. injection Hn as <-.
  assert (∃ M, muxes hp !! m = Some M) as [M HM].
  { unfold Use, getMux in HA. rewrite nonNil_app, Hx, Hy in HA. simpl in HA.
    destruct (muxes hp !! m); [by eexists|done]. }
  destruct (Use_ok hp m M xs fx Hx HM) as [hp1 H1].
  destruct (Use_spec slack hp m xs hp1 Hok H1) as (fx' & Hx' & Hok1 & Hm1 & Ho1).
  assert (fx' = fx) as -> by congruence.
  assert (∃ M1, muxes hp1 !! m = Some M1) as [M1 HM1].
  { unfold Use, getMux in H1. rewrite Hx, HM in H1. simpl in H1.
    destruct (append slack (middlewares M) fx (arrays hp)). injection H1 as <-.
    simpl. rewrite lookup_insert_eq. by eexists. }
  destruct (Use_ok hp1 m M1 ys fy Hy HM1) as [hpB HB].
  destruct (Use_spec slack hp1 m ys hpB Hok1 HB) as (fy' & Hy' & _ & HmB & HoB).
  assert (fy' = fy) as -> by congruence.
  exists hp1, hpB. split_and!; try done.
  intros m'. destruct (decide (m' = m)) as [->|Hne].
  - by rewrite HmA, HmB, Hm1, (assoc_L (++)).
  - by rewrite HoA, HoB, Ho1.
Qed.

(** X12. On every heap that setup code builds from nothing, [Handle] and
    [HandleFunc] with a handler that is not nil, on a Mux that exists, fail
    only where [http.ServeMux] refuses the prefixed pattern, checked against
    the entries of that Mux's router, and then panic with its message: the
    loop of [wrap] stays in bounds and the router is there. Where the
    pattern is accepted they add one entry at the end of the router's
    table, the prefixed pattern with the handler wrapped in the Mux's chain,
    and change no Mux and no chain. *)
Theorem registration_outcome (s : script) hp (m : nat) (M : Mux) (pattern : string)
    (h : Handler) :
  run slack registerErr s emptyHeap = ok hp → muxes hp !! m = Some M →
  ∃ table,
    routers hp !! router M = Some table
    ∧ Handle registerErr m pattern (Some h) hp
      = match registerErr table (prefixPattern M pattern) with
        | Some msg => panic msg
        | None =>
          ok (mkHeap (muxes hp) (arrays hp)
                (<[router M := table ++ [(prefixPattern M pattern,
                     λ r, Rewrap m r (compose (chain hp m) h r) Return)]]> (routers hp)))
        end
    ∧ HandleFunc registerErr m pattern (Some h) hp = Handle registerErr m pattern (Some h) hp.
Proof.
  intros Hrun HM.
  destruct (run_extends slack registerErr s emptyHeap hp emptyHeap_ok Hrun) as [Hok _].
  pose proof (run_routed s emptyHeap hp emptyHeap_routed Hrun) as Hr.
  destruct (Hr m M HM) as [table Ht]. exists table. split; [done|]. split; [|done].
  unfold Handle, getMux. rewrite HM. simpl. rewrite (wrap_spec hp m M h Hok HM). simpl.
  unfold routerHandle. rewrite Ht. by destruct (registerErr table (prefixPattern M pattern)).
Qed.

(** X13. Whatever setup code does, no Mux goes away or changes its router
    or its prefix, and no router loses or reorders an entry: each table only
    grows at its end. *)
Theorem setup_keeps_scopes_and_routes (s : script) hp hp' :
  run slack registerErr s hp = ok hp' →
  (∀ m M, muxes hp !! m = Some M →
     ∃ M', muxes hp' !! m = Some M' ∧ router M' = router M ∧ prefix M' = prefix M)
  ∧ (∀ r table, routers hp !! r = Some table →
       ∃ table', routers hp' !! r = Some table' ∧ table `prefix_of` table').
Proof. apply run_keeps. Qed.

Lemma compose_app (xs ys : list Middleware) (h : Handler) :
  compose (xs ++ ys) h = compose xs (compose ys h).
Proof. unfold compose. by rewrite foldr_app. Qed.

(** X14. A route registered through a scope derived by [Group] or [Route]
    goes to the router of the parent: [http.ServeMux] checks its prefixed
    pattern against the parent's table, so a pattern that the parent's
    entries rule out panics with the router's message; an accepted one
    lands at the end of the parent's table, so [ServeHTTP] on the parent
    hands the matcher a table that holds it, and the parent itself is
    unchanged. *)
Theorem derived_routes_reach_parent (s : script) hp (m : nat) (M : Mux) (pfx pattern : string)
    (h : Handler) :
  run slack registerErr s emptyHeap = ok hp → muxes hp !! m = Some M →
  let child := (deriveMux slack M pfx hp).1 in
  let hp1 := (deriveMux slack M pfx hp).2 in
  ∃ table sc,
    routers hp !! router M = Some table
    ∧ muxes hp1 !! child = Some (mkMux (router M) sc pfx None None)
    ∧ match registerErr table (prefixPattern (mkMux (router M) sc pfx None None) pattern) with
      | Some msg => Handle registerErr child pattern (Some h) hp1 = panic msg
      | None =>
        ∃ H hp3,
          Handle registerErr child pattern (Some h) hp1 = ok hp3
          ∧ routers hp3 !! router M
            = Some (table ++ [(prefixPattern (mkMux (router M) sc pfx None None) pattern, H)])
          ∧ muxes hp3 !! m = Some M
          ∧ ∀ (T : Type) (HS : Sink T)
              (serveMux : list (string * Handler) → option Request → prog)
              (w : rawWriter T) (r : option Request) (l : log),
              ServeHTTP serveMux m w r hp3 l
              = match exec 2
                        (serveMux
                           (table ++ [(prefixPattern (mkMux (router M) sc pfx None None) pattern,
                                       H)]) r)
                        (wrapWriter M w r) l with
                | Some res => ok res
                | None => panic "out of fuel"
                end
      end.
Proof.
  intros Hrun HM.
  destruct (run_extends slack registerErr s emptyHeap hp emptyHeap_ok Hrun) as [Hok _].
  pose proof (run_routed s emptyHeap hp emptyHeap_routed Hrun) as Hr.
  destruct (Hr m M HM) as [table Ht].
  destruct (deriveMux_spec slack hp m M pfx Hok HM)
    as (Hfresh & Hok1 & _ & _ & (sc & Hchild & _) & Hother & Hrt).
  cbv zeta.
  assert (Hm1 : muxes (deriveMux slack M pfx hp).2 !! m = Some M).
  { rewrite Hother; [done|]. intros Heq. rewrite <- Heq in Hfresh. congruence. }
  assert (HH : Handle registerErr (deriveMux slack M pfx hp).1 pattern (Some h)
                 (deriveMux slack M pfx hp).2
               = routerHandle registerErr (router M)
                   (prefixPattern (mkMux (router M) sc pfx None None) pattern)
                   (λ r, Rewrap (deriveMux slack M pfx hp).1 r
                           (compose (chain (deriveMux slack M pfx hp).2
                                       (deriveMux slack M pfx hp).1) h r) Return)
                   (deriveMux slack M pfx hp).2).
  { unfold Handle, getMux. rewrite Hchild. simpl.
    by rewrite (wrap_spec _ _ _ h Hok1 Hchild). }
  exists table, sc. split; [done|]. split; [done|].
  rewrite HH. unfold routerHandle. rewrite Hrt, Ht.
  destruct (registerErr table (prefixPattern (mkMux (router M) sc pfx None None) pattern))
    as [msg|]; [done|].
  eexists _, _. split; [done|]. simpl. split_and!.
  - by rewrite lookup_insert_eq.
  - done.
  - intros T HS serveMux w r l. unfold ServeHTTP, getMux. simpl. rewrite Hm1. simpl.
    by rewrite lookup_insert_eq.
Qed.

(** X15. [New] on a heap that setup code built gives a Mux of its own: no
    chain, no prefix, no handlers, and a new router with an empty table that
    no other Mux points to. A route registered on it is checked against the
    empty table, whatever the other routers hold, and where
    [http.ServeMux] accepts the pattern it enters the new table only; the
    Mux values that were there and their tables stay as they were. *)
Theorem New_is_separate (s : script) hp (m : nat) (M : Mux) (pattern : string) (h : Handler) :
  run slack registerErr s emptyHeap = ok hp → muxes hp !! m = Some M →
  let m2 := (New hp).1 in
  let hp2 := (New hp).2 in
  ∃ r2,
    muxes hp !! m2 = None
    ∧ muxes hp2 !! m2 = Some (mkMux r2 nilSlice "" None None)
    ∧ chain hp2 m2 = []
    ∧ routers hp !! r2 = None ∧ routers hp2 !! r2 = Some []
    ∧ r2 ≠ router M
    ∧ muxes hp2 !! m = Some M
    ∧ routers hp2 !! router M = routers hp !! router M
    ∧ match registerErr [] pattern with
      | Some msg => Handle registerErr m2 pattern (Some h) hp2 = panic msg
      | None =>
        ∃ hp3,
          Handle registerErr m2 pattern (Some h) hp2 = ok hp3
          ∧ routers hp3 !! r2 = Some [(pattern, λ r, Rewrap m2 r (h r) Return)]
          ∧ routers hp3 !! router M = routers hp !! router M
      end.
Proof.
  intros Hrun HM.
  pose proof (run_routed s emptyHeap hp emptyHeap_routed Hrun) as Hr.
  destruct (Hr m M HM) as [table Ht]. unfold New. simpl.
  assert (Hm : muxes hp !! fresh (dom (muxes hp)) = None) by apply not_elem_of_dom, is_fresh.
  assert (Hrt : routers hp !! fresh (dom (routers hp)) = None) by apply not_elem_of_dom, is_fresh.
  assert (Hne : fresh (dom (routers hp)) ≠ router M) by (intros Heq; congruence).
  eexists. split_and!.
  - exact Hm.
  - by rewrite lookup_insert_eq.
  - unfold chain. simpl. by rewrite lookup_insert_eq.
  - exact Hrt.
  - by rewrite lookup_insert_eq.
  - exact Hne.
  - rewrite lookup_insert_ne; [done|]. intros Heq. congruence.
  - by rewrite lookup_insert_ne.
  - unfold Handle, getMux. simpl. rewrite lookup_insert_eq. simpl.
    unfold routerHandle, prefixPattern. simpl. rewrite lookup_insert_eq.
    destruct (registerErr [] pattern) as [msg|]; [done|].
    eexists. split; [done|]. simpl. split.
    + by rewrite lookup_insert_eq.
    + by rewrite !lookup_insert_ne.
Qed.

(** X16. The middleware a scope inherited from its parent runs outside the
    middleware the scope got itself: whatever setup code ran since the scope
    was derived, its chain is the parent's chain at derivation time followed
    by what was appended since, and a handler registered through it is
    wrapped in its own middleware first and in the parent's around that. *)
Theorem parent_middleware_outermost hp (m : nat) (M : Mux) (pfx : string) (s : script) hp2
    (Mc : Mux) (pattern : string) (h : Handler) hp3 :
  heap_ok hp → muxes hp !! m = Some M →
  let child := (deriveMux slack M pfx hp).1 in
  let hp1 := (deriveMux slack M pfx hp).2 in
  run slack registerErr s hp1 = ok hp2 → muxes hp2 !! child = Some Mc →
  Handle registerErr child pattern (Some h) hp2 = ok hp3 →
  ∃ own table,
    chain hp2 child = chain hp m ++ own
    ∧ routers hp2 !! router Mc = Some table
    ∧ routers hp3 !! router Mc
      = Some (table ++ [(prefixPattern Mc pattern,
                         λ r, Rewrap child r (compose (chain hp m) (compose own h) r) Return)]).
Proof.
  intros Hok HM. simpl. intros Hrun HMc HH.
  destruct (deriveMux_spec slack hp m M pfx Hok HM) as (_ & Hok1 & Hcopy & _).
  destruct (run_extends slack registerErr s _ hp2 Hok1 Hrun) as [Hok2 Hpre].
  destruct (Hpre (deriveMux slack M pfx hp).1) as [own Hown]. rewrite Hcopy in Hown.
  destruct (Handle_spec registerErr hp2 _ Mc pattern h hp3 Hok2 HMc HH) as (table & Ht & ->).
  exists own, table. split_and!; try done.
  simpl. rewrite lookup_insert_eq, Hown, compose_app. done.
Qed.
End SetupFacts.

Lemma append_assoc_string (a b c : string) : (a +:+ b) +:+ c = a +:+ b +:+ c.
Proof.
  induction a as [|x a IH]; [done|].
  change (String x ((a +:+ b) +:+ c) = String x (a +:+ b +:+ c)). by rewrite IH.
Qed.

Lemma length_append_string (a b : string) :
  String.length (a +:+ b) = (String.length a + String.length b)%nat.
Proof.
  induction a as [|x a IH]; [done|].
  change (S (String.length (a +:+ b)) = S (String.length a + String.length b)).
  by rewrite IH.
Qed.

Lemma prefixPattern_ext (M M' : Mux) (pattern : string) :
  prefix M = prefix M' → prefixPattern M pattern = prefixPattern M' pattern.
Proof. intros Hp. unfold prefixPattern. by rewrite Hp. Qed.

Lemma prefixPattern_empty (M : Mux) (pattern : string) :
  prefix M = "" → prefixPattern M pattern = pattern.
Proof. intros Hp. unfold prefixPattern. by rewrite Hp. Qed.

(** X17. [prefixPattern] changes no character of the pattern and inserts
    the prefix once: in front of the first '/', or in front of the whole
    pattern when it has no '/'; the result is as long as pattern and prefix
    together. *)
Theorem prefix_inserted_once (M : Mux) (pattern : string) :
  ∃ before after,
    pattern = before +:+ after
    ∧ prefixPattern M pattern = before +:+ prefix M +:+ after
    ∧ noSlash before = true
    ∧ (noSlash pattern = true → before = "")
    ∧ (noSlash pattern = false → ∃ rest, after = String "/" rest)
    ∧ String.length (prefixPattern M pattern)
      = (String.length pattern + String.length (prefix M))%nat.
Proof.
  destruct (noSlash pattern) eqn:Hns.
  - exists "", pattern. rewrite (prefixPattern_noSlash M pattern Hns).
    split_and!; try done. rewrite length_append_string. lia.
  - destruct (pattern_split pattern Hns) as (verb & rest & -> & Hv).
    exists verb, (String "/" rest).
    assert (Hpp : prefixPattern M (verb +:+ String "/" rest)
                  = verb +:+ prefix M +:+ String "/" rest).
    { destruct (decide (prefix M = "")) as [Hp|Hp].
      - unfold prefixPattern. by rewrite Hp.
      - by apply prefixPattern_spec. }
    rewrite Hpp. split_and!; try done.
    + by eexists.
    + rewrite !length_append_string. lia.
Qed.

(** X18. Prefixes nest: when the inner prefix starts with '/', prefixing a
    pattern with the inner prefix and then with the outer one gives what
    prefixing with the outer prefix followed by the inner one gives, which
    is what a [Route] inside a [Route] registers. *)
Theorem prefixes_nest (M1 M2 M12 : Mux) (q pattern : string) :
  prefix M2 = String "/" q → prefix M12 = prefix M1 +:+ prefix M2 →
  prefixPattern M12 pattern = prefixPattern M1 (prefixPattern M2 pattern).
Proof.
  intros H2 H12.
  assert (Hne2 : prefix M2 ≠ "") by (rewrite H2; done).
  destruct (decide (prefix M1 = "")) as [H1|H1].
  - rewrite H1 in H12. simpl in H12.
    rewrite (prefixPattern_ext M12 M2 pattern H12).
    by rewrite (prefixPattern_empty M1).
  - assert (Hne12 : prefix M12 ≠ "").
    { rewrite H12. destruct (prefix M1); [done|]. simpl. done. }
    destruct (noSlash pattern) eqn:Hns.
    + rewrite (prefixPattern_noSlash M12 pattern Hns), (prefixPattern_noSlash M2 pattern Hns).
      rewrite H2. change (String "/" q +:+ pattern) with ("" +:+ String "/" (q +:+ pattern)).
      rewrite (prefixPattern_spec M1 "" (q +:+ pattern) H1 eq_refl).
      rewrite H12, H2. simpl. by rewrite append_assoc_string.
    + destruct (pattern_split pattern Hns) as (verb & rest & -> & Hv).
      rewrite (prefixPattern_spec M12 verb rest Hne12 Hv).
      rewrite (prefixPattern_spec M2 verb rest Hne2 Hv).
      rewrite H2.
      change (verb +:+ String "/" q +:+ String "/" rest)
        with (verb +:+ String "/" (q +:+ String "/" rest)).
      rewrite (prefixPattern_spec M1 verb (q +:+ String "/" rest) H1 Hv).
      rewrite H12, H2. by rewrite append_assoc_string.
Qed.

(** X19. [WithNotFound] and [WithMethodNotAllowed] each set their own
    handler of the Mux and nothing else: the later of two calls of the same
    one wins, the two commute, the other handler, chains, prefix, router
    and every other Mux stay, and [ServeHTTP] then wraps the sink with the
    handler that was set beside the other one, a nil handler leaving its
    status without interception. *)
Theorem handler_setters hp (m : nat) (M : Mux) (h1 h2 : option Handler) :
  muxes hp !! m = Some M →
  (WithNotFound m h1 hp ≫= WithNotFound m h2) = WithNotFound m h2 hp
  ∧ (WithMethodNotAllowed m h1 hp ≫= WithMethodNotAllowed m h2) = WithMethodNotAllowed m h2 hp
  ∧ (WithNotFound m h1 hp ≫= WithMethodNotAllowed m h2)
    = (WithMethodNotAllowed m h2 hp ≫= WithNotFound m h1)
  ∧ (∃ hp',
      WithNotFound m h1 hp = ok hp'
      ∧ muxes hp' !! m
        = Some (mkMux (router M) (middlewares M) (prefix M) h1 (mux_methodNotAllowed M))
      ∧ (∀ m', m' ≠ m → muxes hp' !! m' = muxes hp !! m')
      ∧ (∀ m', chain hp' m' = chain hp m')
      ∧ routers hp' = routers hp
      ∧ ∀ (T : Type) (HS : Sink T) (serveMux : list (string * Handler) → option Request → prog)
          (w : rawWriter T) (r : option Request) (l : log) table,
          routers hp !! router M = Some table →
          ServeHTTP serveMux m w r hp' l
          = match exec 2 (serveMux table r)
                    (wrapResponseWriter w r h1 (mux_methodNotAllowed M)) l with
            | Some res => ok res
            | None => panic "out of fuel"
            end)
  ∧ (∃ hp',
      WithMethodNotAllowed m h2 hp = ok hp'
      ∧ muxes hp' !! m
        = Some (mkMux (router M) (middlewares M) (prefix M) (mux_notFound M) h2)
      ∧ (∀ m', m' ≠ m → muxes hp' !! m' = muxes hp !! m')
      ∧ (∀ m', chain hp' m' = chain hp m')
      ∧ routers hp' = routers hp
      ∧ ∀ (T : Type) (HS : Sink T) (serveMux : list (string * Handler) → option Request → prog)
          (w : rawWriter T) (r : option Request) (l : log) table,
          routers hp !! router M = Some table →
          ServeHTTP serveMux m w r hp' l
          = match exec 2 (serveMux table r)
                    (wrapResponseWriter w r (mux_notFound M) h2) l with
            | Some res => ok res
            | None => panic "out of fuel"
            end).
Proof.
  intros HM. unfold WithNotFound, WithMethodNotAllowed, getMux. rewrite HM. simpl.
  unfold setMux. simpl. rewrite !lookup_insert_eq. simpl. rewrite !insert_insert_eq.
  split_and!; try done.
  - eexists. split; [done|]. simpl. split_and!.
    + by rewrite lookup_insert_eq.
    + intros m' Hne. by rewrite lookup_insert_ne.
    + intros m'. unfold chain. simpl. destruct (decide (m' = m)) as [->|Hne].
      * by rewrite lookup_insert_eq, HM.
      * by rewrite lookup_insert_ne.
    + done.
    + intros T HS serveMux w r l table Ht. unfold ServeHTTP, getMux, wrapWriter. simpl.
      rewrite lookup_insert_eq. simpl. by rewrite Ht.
  - eexists. split; [done|]. simpl. split_and!.
    + by rewrite lookup_insert_eq.
    + intros m' Hne. by rewrite lookup_insert_ne.
    + intros m'. unfold chain. simpl. destruct (decide (m' = m)) as [->|Hne].
      * by rewrite lookup_insert_eq, HM.
      * by rewrite lookup_insert_ne.
    + done.
    + intros T HS serveMux w r l table Ht. unfold ServeHTTP, getMux, wrapWriter. simpl.
      rewrite lookup_insert_eq. simpl. by rewrite Ht.
Qed.

(** * The further properties at the inputs of the test suite *)

(** [TestUseNilMiddlewarePanics]: a nil among the arguments, and none. *)
Lemma Use_nil_arguments_witness :
  let hp := heapOf parentSetup in
  let a := Some (tracing "a-before" "a-after") in
  Use doubling 0 [a; None] hp = panic "chain: nil middleware passed to Use"
  ∧ ∃ hp', Use doubling 0 [a] hp = ok hp'.
Proof.
  intros hp a. destruct (Use_nil_arguments doubling 0 [a; None] hp) as [Hnil _].
  destruct (Use_nil_arguments doubling 0 [a] hp) as [_ Hok].
  split.
  - apply Hnil. apply list_elem_of_further, list_elem_of_here.
  - apply Hok.
    + intros Hin. apply list_elem_of_singleton in Hin. discriminate.
    + vm_compute. eexists. reflexivity.
Defined.

(** [TestMultipleUseCalls]. *)
Lemma Use_additive_witness :
  let hp := heapOf parentSetup in
  let a := Some (tracing "a-before" "a-after") in
  let b := Some (tracing "b-before" "b-after") in
  ∃ hpA hp1 hpB,
    Use doubling 0 [a; b] hp = ok hpA
    ∧ Use doubling 0 [a] hp = ok hp1 ∧ Use doubling 0 [b] hp1 = ok hpB
    ∧ ∀ m', chain hpA m' = chain hpB m'.
Proof.
  intros hp a b.
  destruct (Use doubling 0 [a; b] hp) as [hpA|msg] eqn:HA; [|vm_compute in HA; discriminate].
  destruct (Use_additive doubling 0 [a] [b] hp hpA) as (hp1 & hpB & H1 & HB & Hch).
  - apply heapOf_ok.
  - exact HA.
  - exists hpA, hp1, hpB. split_and!; [reflexivity|exact H1|exact HB|exact Hch].
Defined.

(** A pattern the router takes, and on the Mux without prefix one it
    refuses. *)
Lemma registration_outcome_witness :
  let hp := heapOf routeSetup in
  (∃ hp', Handle strictCheck 1 "GET /users" (Some (okHandler "users")) hp = ok hp')
  ∧ HandleFunc strictCheck 0 "users" (Some (okHandler "users")) hp
    = panic "http: host/path missing /".
Proof.
  intros hp.
  destruct (registration_outcome doubling strictCheck routeSetup hp 1 (muxAt hp 1) "GET /users"
              (okHandler "users")) as (t1 & Ht1 & H1 & _);
    [vm_compute; reflexivity|vm_compute; reflexivity|].
  destruct (registration_outcome doubling strictCheck routeSetup hp 0 (muxAt hp 0) "users"
              (okHandler "users")) as (t0 & Ht0 & H0 & HF);
    [vm_compute; reflexivity|vm_compute; reflexivity|].
  assert (t1 = []) as ->.
  { apply (inj Some). rewrite <- Ht1. vm_compute. reflexivity. }
  assert (t0 = []) as ->.
  { apply (inj Some). rewrite <- Ht0. vm_compute. reflexivity. }
  split.
  - eexists. exact H1.
  - rewrite HF. exact H0.
Defined.

Lemma setup_keeps_scopes_and_routes_witness :
  let hp := heapOf routeSetup in
  let later :=
    DoUse 1 [Some (tracing "b" "a")]
      (DoHandle 1 "GET /users" (Some (okHandler "users"))
         (DoWithNotFound 0 (Some custom404) Done)) in
  ∃ hp',
    run doubling strictCheck later hp = ok hp'
    ∧ prefix (muxAt hp' 1) = "/api" ∧ router (muxAt hp' 1) = router (muxAt hp 0).
Proof.
  intros hp later.
  destruct (run doubling strictCheck later hp) as [hp'|msg] eqn:Hrun;
    [|vm_compute in Hrun; discriminate].
  destruct (setup_keeps_scopes_and_routes doubling strictCheck later hp hp' Hrun) as [Hm _].
  destruct (Hm 1 (muxAt hp 1)) as (M' & HM' & Hr & Hp); [vm_compute; reflexivity|].
  exists hp'. split; [reflexivity|]. unfold muxAt at 1 2. rewrite HM'. simpl.
  split; [rewrite Hp|rewrite Hr]; vm_compute; reflexivity.
Defined.

(** [TestGroups]: a route registered in a group goes to the router of the
    Mux the group was made from; a pattern that is there already is
    refused. *)
Lemma derived_routes_reach_parent_witness :
  let hp := heapOf orderSetup in
  let M := muxAt hp 0 in
  let child := (deriveMux doubling M "" hp).1 in
  let hp1 := (deriveMux doubling M "" hp).2 in
  (∃ hp3, Handle strictCheck child "GET /dashboard" (Some (okHandler "dashboard")) hp1 = ok hp3
          ∧ (λ table, table.*1) <$> (routers hp3 !! router M)
            = Some ["GET /order-test"; "GET /dashboard"])
  ∧ Handle strictCheck child "GET /order-test" (Some (okHandler "again")) hp1
    = panic "http: pattern conflicts with a registered pattern".
Proof.
  intros hp M child hp1.
  destruct (derived_routes_reach_parent doubling strictCheck orderSetup hp 0 M ""
              "GET /dashboard" (okHandler "dashboard")) as (t1 & sc1 & Ht1 & _ & H1);
    [vm_compute; reflexivity|vm_compute; reflexivity|].
  destruct (derived_routes_reach_parent doubling strictCheck orderSetup hp 0 M ""
              "GET /order-test" (okHandler "again")) as (t2 & sc2 & Ht2 & _ & H2);
    [vm_compute; reflexivity|vm_compute; reflexivity|].
  assert (t2 = t1) as -> by congruence.
  assert (Hp : t1.*1 = ["GET /order-test"]).
  { apply (inj Some). change (Some (t1.*1)) with ((λ t, t.*1) <$> Some t1).
    rewrite <- Ht1. vm_compute. reflexivity. }
  assert (E1 : strictCheck t1 "GET /dashboard" = None)
    by (unfold strictCheck; rewrite Hp; vm_compute; reflexivity).
  assert (E2 : strictCheck t1 "GET /order-test"
               = Some "http: pattern conflicts with a registered pattern")
    by (unfold strictCheck; rewrite Hp; vm_compute; reflexivity).
  unfold prefixPattern in H1, H2. simpl in H1, H2. rewrite E1 in H1. rewrite E2 in H2.
  split; [|exact H2].
  destruct H1 as (H & hp3 & HH & Hr & _). exists hp3. split; [exact HH|].
  fold M in Hr. rewrite Hr. rewrite fmap_Some. eexists. split; [reflexivity|].
  by rewrite fmap_app, Hp.
Defined.

(** A new Mux beside [TestMultipleMiddlewareOrder]'s takes the pattern the
    other one has. *)
Lemma New_is_separate_witness :
  let hp := heapOf orderSetup in
  ∃ hp3,
    Handle strictCheck (New hp).1 "GET /order-test" (Some (okHandler "x")) (New hp).2 = ok hp3
    ∧ routers hp3 !! router (muxAt hp 0) = routers hp !! router (muxAt hp 0).
Proof.
  intros hp.
  destruct (New_is_separate doubling strictCheck orderSetup hp 0 (muxAt hp 0) "GET /order-test"
              (okHandler "x")) as (r2 & _ & _ & _ & _ & _ & _ & _ & _ & HH);
    [vm_compute; reflexivity|vm_compute; reflexivity|].
  change (strictCheck [] "GET /order-test") with (@None string) in HH.
  destruct HH as (hp3 & HH & _ & Hr). exists hp3. split; [exact HH|exact Hr].
Defined.

(** [TestGroups]: the global middleware runs around the group's. *)
Lemma parent_middleware_outermost_witness :
  let hp := heapOf parentSetup in
  let child := (deriveMux doubling (muxAt hp 0) "" hp).1 in
  let hp1 := (deriveMux doubling (muxAt hp 0) "" hp).2 in
  let inGroup := DoUse child [Some (tracing "auth-before" "auth-after")] Done in
  ∃ hp2 hp3 own,
    run doubling strictCheck inGroup hp1 = ok hp2
    ∧ Handle strictCheck child "GET /dashboard" (Some (okHandler "dashboard")) hp2 = ok hp3
    ∧ chain hp2 child = chain hp 0 ++ own.
Proof.
  intros hp child hp1 inGroup.
  destruct (run doubling strictCheck inGroup hp1) as [hp2|msg] eqn:Hrun;
    [|vm_compute in Hrun; discriminate].
  destruct (Handle strictCheck child "GET /dashboard" (Some (okHandler "dashboard")) hp2)
    as [hp3|msg] eqn:HH.
  - destruct (parent_middleware_outermost doubling strictCheck hp 0 (muxAt hp 0) "" inGroup hp2
                (muxAt hp2 child) "GET /dashboard" (okHandler "dashboard") hp3)
      as (own & table & Hch & _).
    + apply heapOf_ok.
    + vm_compute. reflexivity.
    + exact Hrun.
    + vm_compute in Hrun. injection Hrun as <-. vm_compute. reflexivity.
    + exact HH.
    + exists hp2, hp3, own. split_and!; [reflexivity|exact HH|exact Hch].
  - exfalso. vm_compute in Hrun. injection Hrun as <-. vm_compute in HH. discriminate.
Defined.

(** [TestNestedRoutePrefix]: "/api" around "/v1". *)
Lemma prefixes_nest_witness :
  let api := mkMux 0 nilSlice "/api" None None in
  let v1 := mkMux 0 nilSlice "/v1" None None in
  let both := mkMux 0 nilSlice "/api/v1" None None in
  prefixPattern both "GET /users" = prefixPattern api (prefixPattern v1 "GET /users")
  ∧ prefixPattern both "GET /users" = "GET /api/v1/users".
Proof.
  intros api v1 both. split; [|reflexivity].
  apply (prefixes_nest api v1 both "v1" "GET /users"); reflexivity.
Defined.

(** Taking the not-found handler of [parentSetup] away again, and giving
    the Mux a method-not-allowed handler beside it. *)
Lemma handler_setters_witness :
  let hp := heapOf parentSetup in
  (∃ hp',
     WithNotFound 0 None hp = ok hp'
     ∧ mux_notFound (muxAt hp 0) = Some custom404
     ∧ mux_notFound (muxAt hp' 0) = None
     ∧ (∀ m', chain hp' m' = chain hp m'))
  ∧ (∃ hp',
       WithMethodNotAllowed 0 (Some custom404) hp = ok hp'
       ∧ mux_methodNotAllowed (muxAt hp 0) = None
       ∧ mux_methodNotAllowed (muxAt hp' 0) = Some custom404
       ∧ mux_notFound (muxAt hp' 0) = Some custom404).
Proof.
  intros hp.
  destruct (handler_setters hp 0 (muxAt hp 0) None (Some custom404))
    as (_ & _ & _ & (hp1 & HW1 & HM1 & _ & Hch & _) & (hp2 & HW2 & HM2 & _)).
  - vm_compute. reflexivity.
  - split.
    + exists hp1. split; [exact HW1|]. split; [reflexivity|]. split; [|exact Hch].
      unfold muxAt at 1. by rewrite HM1.
    + exists hp2. split; [exact HW2|]. split; [reflexivity|].
      unfold muxAt at 1 2. rewrite HM2. split; reflexivity.
Defined.
